(** * Multipart uploads of the charm store's blobstore

    A shallow embedding of the multipart code of package [blobstore]
    (in the source tree it is the last document of
    [internal/storetesting/http.go], from [package blobstore] on): the
    upload tracker ([NewUpload], [PutPart]), the finalizer
    ([FinishUpload], [setUploadHash]) and the garbage collector
    ([RemoveUpload], [RemoveExpiredUploads], [removeUpload]), over a
    model of the MongoDB collection that holds the upload documents and
    of the blob backend that holds the parts.

    Every function carries the name it has in the source; a loop of the
    source is a [Fixpoint] named after what it does, with a comment that
    says which loop it is. The record read from the collection ([udoc])
    and the collection itself are separate arguments of [setUploadHash]
    and [removeUpload], as in the source: what other callers did between
    the read and the call is a store that differs from the record.

    Go's [int] and [int64] are [Z] (no arithmetic of the code can leave
    their range: it only compares, and subtracts one from a length), a
    slice of pointers [[]*PartInfo] is a [list (option PartInfo.t)], a
    Go [error] that may be [nil] is an [option error]. *)

From Stdlib Require Import ZArith.
From Stdlib.Strings Require Import Byte.
From stdpp Require Import base decidable option strings list gmap pretty.

#[local] Open Scope Z_scope.

(** ** Errors: [gopkg.in/errgo.v1] *)

(** The text of an error made by this package, with the arguments of its
    format string. *)
Inductive message : Type :=
  | MsgNone
  | MsgCannotCreateUpload
  | MsgNegativePartNumber
  | MsgPartNumberTooBig (part maximum : Z)
  | MsgNonPositiveSize (part size : Z)
  | MsgPartTooBig (part maximum : Z)
  | MsgPartTooSmall (need got : Z)
  | MsgPartWasTooSmall (i need got : Z)
  | MsgHashMismatchUploaded
  | MsgUploadAlreadyComplete
  | MsgCannotUploadPart (name : string)
  | MsgCannotMarkComplete
  | MsgConcurrentUpload
  | MsgPartCountMismatch (got uploaded : Z)
  | MsgPartNotUploadedYet (i : Z)
  | MsgHashMismatchOnPart (i : Z) (got want : string)
  | MsgUploadExpiredOrRemoved
  | MsgCouldNotUpdateHash
  | MsgCannotOpenBlob (name : string)
  | MsgErrorReadingBlob (name : string)
  | MsgFailedToRemoveSomeData
  | MsgUploadIdNotFound (uploadId : string)
  | MsgCannotGetUploadId (uploadId : string).

(** A non-nil Go error value. [ErrNotFound] is this package's sentinel
    and [MgoErrNotFound] is [mgo.ErrNotFound]; the code compares errors
    with [==] against these two only. [Foreign] is any other error value
    of the database driver or of the backend; [Err] is an [*errgo.Err]. *)
#[local] Unset Elimination Schemes.
Inductive error : Type :=
  | ErrNotFound
  | MgoErrNotFound
  | Foreign (what : string)
  | Err (msg : message) (cause underlying : option error).
#[local] Set Elimination Schemes.

Module errgo.

Definition Newf (msg : message) : error := Err msg None None.

(** [errgo.Cause]: the recorded cause, or the error itself. *)
Definition Cause (err : error) : error :=
  match err with
  | Err _ (Some cause) _ => cause
  | _ => err
  end.

(** [errgo.Is(ErrNotFound)], the only [pass] function of the package. *)
Definition IsErrNotFound (err : error) : bool :=
  match err with ErrNotFound => true | _ => false end.

Definition IsMgoErrNotFound (err : error) : bool :=
  match err with MgoErrNotFound => true | _ => false end.

(** [errgo.NoteMask] on a non-nil error: the cause survives when one of
    the [pass] functions accepts it. *)
Definition NoteMask (underlying : error) (msg : message)
    (pass : list (error → bool)) : error :=
  Err msg
    (if existsb (λ f, f (Cause underlying)) pass
     then Some (Cause underlying) else None)
    (Some underlying).

Definition Mask (underlying : error) (pass : list (error → bool)) : error :=
  NoteMask underlying MsgNone pass.

Definition Notef (underlying : error) (msg : message) : error :=
  NoteMask underlying msg [].

Definition WithCausef (underlying : option error) (cause : error)
    (msg : message) : error :=
  Err msg (Some cause) underlying.

End errgo.

(** What a Go function returning [(T, error)] does: it returns a value,
    returns an error, or panics (nil dereference, index out of range). *)
Inductive outcome (A : Type) : Type :=
  | Ok (a : A)
  | Fail (err : error)
  | Panics.
Arguments Ok {A} a.
Arguments Fail {A} err.
Arguments Panics {A}.

(** ** The data model *)

Definition maxParts : Z := 400.
Definition minPartSize : Z := 5 * 1024 * 1024.
Definition maxPartSize : Z := Z.shiftl 1 32 - 1.

(** Go's conversion [uint32(x)] of an [int64]. *)
Definition uint32 (x : Z) : Z := x mod 2 ^ 32.

Module MultipartIndex.
Record t : Type := mk { Sizes : list Z }.
End MultipartIndex.

Module Part.
Record t : Type := mk { Hash : string }.
End Part.

Module PartInfo.
Record t : Type := mk { Hash : string; Size : Z; Complete : bool }.
End PartInfo.

(** The Go struct an upload document is decoded into. [Expires] is an
    instant on some linear time scale. *)
Module uploadDoc.
Record t : Type := mk {
  Id : string;
  Hash : string;
  Expires : Z;
  Parts : list (option PartInfo.t)
}.
End uploadDoc.

(** ** The upload collection: [gopkg.in/mgo.v2] on MongoDB *)

Module mgo.

(** A stored document, keyed by its [_id]. The [hash] field is tagged
    [omitempty]: it is absent until some update sets it. *)
Record document : Type := mkDocument {
  hash : option string;
  expires : Z;
  parts : list (option PartInfo.t)
}.

Inductive operation : Type := OpInsert | OpFindOne | OpUpdate | OpRemove.

(** The collection is the map of its documents. The driver can fail for
    reasons of its own: [fault] is the error, if any, with which an
    operation of each kind fails, and [cursorFault] the number of
    documents after which a cursor fails and its error. *)
Record Collection : Type := mkCollection {
  docs : gmap string document;
  fault : operation → option error;
  cursorFault : option (nat * error)
}.

Definition withDocs (c : Collection) (m : gmap string document) : Collection :=
  mkCollection m (fault c) (cursorFault c).

Definition decode (id : string) (d : document) : uploadDoc.t :=
  uploadDoc.mk id (default "" (hash d)) (expires d) (parts d).

(** Marshalling of [uploadDoc{Id: id, Expires: expires}]. *)
Definition encode (udoc : uploadDoc.t) : document :=
  mkDocument
    (if decide (uploadDoc.Hash udoc = "") then None else Some (uploadDoc.Hash udoc))
    (uploadDoc.Expires udoc) (uploadDoc.Parts udoc).

Definition Insert (c : Collection) (udoc : uploadDoc.t) : Collection * option error :=
  match fault c OpInsert with
  | Some err => (c, Some err)
  | None =>
      match docs c !! uploadDoc.Id udoc with
      | Some _ => (c, Some (Foreign "duplicate key"))
      | None => (withDocs c (<[uploadDoc.Id udoc := encode udoc]> (docs c)), None)
      end
  end.

(** [FindId(id).One(&udoc)] *)
Definition FindId (c : Collection) (id : string) : error + uploadDoc.t :=
  match fault c OpFindOne with
  | Some err => inl err
  | None =>
      match docs c !! id with
      | Some d => inr (decode id d)
      | None => inl MgoErrNotFound
      end
  end.

(** [Update(selector, update)] where the selector fixes [_id] and
    [sel] is the rest of it. *)
Definition Update (c : Collection) (id : string) (sel : document → bool)
    (update : document → document) : Collection * option error :=
  match fault c OpUpdate with
  | Some err => (c, Some err)
  | None =>
      match docs c !! id with
      | Some d =>
          if sel d then (withDocs c (<[id := update d]> (docs c)), None)
          else (c, Some MgoErrNotFound)
      | None => (c, Some MgoErrNotFound)
      end
  end.

Definition UpdateId (c : Collection) (id : string)
    (update : document → document) : Collection * option error :=
  Update c id (λ _, true) update.

Definition Remove (c : Collection) (id : string) (sel : document → bool)
    : Collection * option error :=
  match fault c OpRemove with
  | Some err => (c, Some err)
  | None =>
      match docs c !! id with
      | Some d =>
          if sel d then (withDocs c (delete id (docs c)), None)
          else (c, Some MgoErrNotFound)
      | None => (c, Some MgoErrNotFound)
      end
  end.

Definition RemoveId (c : Collection) (id : string) : Collection * option error :=
  Remove c id (λ _, true).

(** [Find(selector).Iter()]: the documents the cursor delivers, each
    decoded by [it.Next], and [it.Err()]. *)
Definition Find (c : Collection) (sel : document → bool)
    : list uploadDoc.t * option error :=
  let found :=
    (λ kv, decode kv.1 kv.2) <$> List.filter (λ kv, sel kv.2) (map_to_list (docs c)) in
  match cursorFault c with
  | Some (n, err) => (take n found, Some err)
  | None => (found, None)
  end.

(** [{"hash": {"$exists": false}}] *)
Definition hashNotExists (d : document) : bool :=
  match hash d with None => true | Some _ => false end.

(** [{"$or": [{"parts.N": {"$exists": false}}, {"parts.N": nil}]}] *)
Definition partNotExistsOrNull (n : nat) (d : document) : bool :=
  match parts d !! n with
  | Some (Some _) => false
  | _ => true
  end.

(** [{"expires": {"$lt": now}}] *)
Definition expiresBefore (now : Z) (d : document) : bool :=
  bool_decide (expires d < now).

(** Setting element [n] of an array: in place within the array, and
    beyond its end after padding it with nulls. *)
Definition setElem {A} (l : list (option A)) (n : nat) (x : A) : list (option A) :=
  if decide (n < length l)%nat then <[n := Some x]> l
  else l ++ replicate (n - length l) None ++ [Some x].

(** [{"$set": {"parts.N": p}}] *)
Definition setPart (n : nat) (p : PartInfo.t) (d : document) : document :=
  mkDocument (hash d) (expires d) (setElem (parts d) n p).

(** [{"$set": {"hash": h}}] *)
Definition setHash (h : string) (d : document) : document :=
  mkDocument (Some h) (expires d) (parts d).

End mgo.

(** ** The blob backend *)

(** An [io.Reader]: the bytes it delivers and the error, other than
    [io.EOF], that ends the stream, if any. *)
Record Reader : Type := mkReader {
  rdData : list Byte.byte;
  rdErr : option error
}.

(** The operations of the backend the store is built on, on the
    backend's state [B]: [Put(r, name, size, hash)], [Open(name, nil)]
    and [Remove(name, nil)]. *)
Class Backend (B : Type) : Type := {
  Put : B → Reader → string → Z → string → B * option error;
  Open : B → string → error + (Reader * Z);
  Remove : B → string → B * option error
}.

(** The [Store]: its upload collection, its backend, and the lines the
    package logger has written at error level (blob name and error). *)
Record Store (B : Type) : Type := mkStore {
  uploadc : mgo.Collection;
  backend : B;
  logged : list (string * error)
}.
Arguments mkStore {B} uploadc backend logged.
Arguments uploadc {B} s.
Arguments backend {B} s.
Arguments logged {B} s.

Definition withUploadc {B} (s : Store B) (c : mgo.Collection) : Store B :=
  mkStore c (backend s) (logged s).

Definition withBackend {B} (s : Store B) (b : B) : Store B :=
  mkStore (uploadc s) b (logged s).

Definition logErrorf {B} (s : Store B) (name : string) (err : error) : Store B :=
  mkStore (uploadc s) (backend s) (logged s ++ [(name, err)]).

(** ** The multipart operations *)

Section Multipart.

Context {B : Type} `{!Backend B}.

(** [NewHash] followed by [fmt.Sprintf("%x", h.Sum(nil))]: the hex
    digest of the bytes written to the hash so far. The hash function
    itself (SHA-384) is a parameter. *)
Variable sha384hex : list Byte.byte → string.

(** [NewUpload]; [oid] is the hex form of the fresh [bson.NewObjectId()]. *)
Definition NewUpload (s : Store B) (oid : string) (expires : Z)
    : Store B * outcome string :=
  let uploadId := oid in
  let '(c, err) := mgo.Insert (uploadc s) (uploadDoc.mk uploadId "" expires []) in
  match err with
  | Some err => (withUploadc s c, Fail (errgo.Notef err MsgCannotCreateUpload))
  | None => (withUploadc s c, Ok uploadId)
  end.

Definition getUpload (s : Store B) (uploadId : string) : error + uploadDoc.t :=
  match mgo.FindId (uploadc s) uploadId with
  | inl err =>
      if errgo.IsMgoErrNotFound err
      then inl (errgo.WithCausef None ErrNotFound (MsgUploadIdNotFound uploadId))
      else inl (errgo.Notef err (MsgCannotGetUploadId uploadId))
  | inr udoc => inr udoc
  end.

(** The loop of [checkPartSizes], at index [i] of the slice with
    [parts] left to visit. *)
Fixpoint checkPartSizesFrom (i : Z) (parts : list (option PartInfo.t)) (part : Z)
    : option error :=
  match parts with
  | [] => None
  | p :: rest =>
      match p with
      | Some p =>
          if decide (i ≠ part ∧ PartInfo.Size p < minPartSize)
          then Some (errgo.Newf (MsgPartWasTooSmall i minPartSize (PartInfo.Size p)))
          else checkPartSizesFrom (i + 1) rest part
      | None => checkPartSizesFrom (i + 1) rest part
      end
  end.

Definition checkPartSizes (parts : list (option PartInfo.t)) (part size : Z)
    : option error :=
  if decide (part >= 0 ∧ part < Z.of_nat (length parts) - 1 ∧ size < minPartSize)
  then Some (errgo.Newf (MsgPartTooSmall minPartSize size))
  else checkPartSizesFrom 0 parts part.

(** [fmt.Sprintf("%s/%d", uploadId, part)] *)
Definition uploadPartName (uploadId : string) (part : Z) : string :=
  uploadId +:+ "/" +:+ pretty part.

Definition initializePart (s : Store B) (uploadId : string) (part : Z)
    (hash : string) (size : Z) : Store B * option error :=
  let partElem := Z.to_nat part in
  let '(c, err) :=
    mgo.Update (uploadc s) uploadId
      (λ d, mgo.hashNotExists d && mgo.partNotExistsOrNull partElem d)
      (mgo.setPart partElem (PartInfo.mk hash size false)) in
  match err with
  | None => (withUploadc s c, None)
  | Some err =>
      if errgo.IsMgoErrNotFound err
      then (withUploadc s c, Some (errgo.Newf MsgConcurrentUpload))
      else (withUploadc s c, Some (errgo.Mask err []))
  end.

(** The end of [PutPart], once the part record is known to be there:
    the part is put in the backend and its record marked complete. *)
Definition putAndMarkComplete (s : Store B) (uploadId : string) (part : Z)
    (r : Reader) (size : Z) (hash : string) : Store B * option error :=
  let partName := uploadPartName uploadId part in
  let '(b, err) := Put (backend s) r partName size hash in
  let s := withBackend s b in
  match err with
  | Some err => (s, Some (errgo.Notef err (MsgCannotUploadPart partName)))
  | None =>
      let '(c, err) :=
        mgo.UpdateId (uploadc s) uploadId
          (mgo.setPart (Z.to_nat part) (PartInfo.mk hash size true)) in
      match err with
      | Some err => (withUploadc s c, Some (errgo.Notef err MsgCannotMarkComplete))
      | None => (withUploadc s c, None)
      end
  end.

(** [udoc.Parts[part]] when [part < len(udoc.Parts) && udoc.Parts[part]
    != nil], for a [part] that is not negative. *)
Definition storedPart (udoc : uploadDoc.t) (part : Z) : option PartInfo.t :=
  if decide (part < Z.of_nat (length (uploadDoc.Parts udoc)))
  then mjoin (uploadDoc.Parts udoc !! Z.to_nat part)
  else None.

Definition PutPart (s : Store B) (uploadId : string) (part : Z) (r : Reader)
    (size : Z) (hash : string) : Store B * option error :=
  if decide (part < 0) then (s, Some (errgo.Newf MsgNegativePartNumber))
  else if decide (part >= maxParts)
  then (s, Some (errgo.Newf (MsgPartNumberTooBig part (maxParts - 1))))
  else if decide (size ≤ 0) then (s, Some (errgo.Newf (MsgNonPositiveSize part size)))
  else if decide (size >= maxPartSize)
  then (s, Some (errgo.Newf (MsgPartTooBig part maxPartSize)))
  else
    match getUpload s uploadId with
    | inl err => (s, Some (errgo.Mask err [errgo.IsErrNotFound]))
    | inr udoc =>
        match checkPartSizes (uploadDoc.Parts udoc) part size with
        | Some err => (s, Some (errgo.Mask err []))
        | None =>
            match storedPart udoc part with
            | Some p =>
                if decide (PartInfo.Hash p ≠ hash)
                then (s, Some (errgo.Newf MsgHashMismatchUploaded))
                else if PartInfo.Complete p then (s, None)
                else putAndMarkComplete s uploadId part r size hash
            | None =>
                if decide (uploadDoc.Hash udoc ≠ "")
                then (s, Some (errgo.Newf MsgUploadAlreadyComplete))
                else
                  let '(s, err) := initializePart s uploadId part hash size in
                  match err with
                  | Some err => (s, Some (errgo.Mask err []))
                  | None => putAndMarkComplete s uploadId part r size hash
                  end
            end
        end
    end.

(** [copyBlob]: the writer is the hash, given by the bytes written to
    it; [io.Copy] writes what the reader delivers and returns the
    reader's error. *)
Definition copyBlob (s : Store B) (w : list Byte.byte) (name : string)
    : list Byte.byte * option error :=
  match Open (backend s) name with
  | inl err => (w, Some (errgo.NoteMask err (MsgCannotOpenBlob name) [errgo.IsErrNotFound]))
  | inr (rc, _) =>
      let w := w ++ rdData rc in
      match rdErr rc with
      | Some err =>
          if errgo.IsMgoErrNotFound (errgo.Cause err)
          then (w, Some (errgo.WithCausef (Some err) ErrNotFound (MsgErrorReadingBlob name)))
          else (w, Some (errgo.Notef err (MsgErrorReadingBlob name)))
      | None => (w, None)
      end
  end.

(** The loop of [setUploadHash] over [range udoc.Parts], at index [i]. *)
Fixpoint copyParts (s : Store B) (uploadId : string) (h : list Byte.byte) (i : Z)
    (parts : list (option PartInfo.t)) : error + list Byte.byte :=
  match parts with
  | [] => inr h
  | _ :: rest =>
      match copyBlob s h (uploadPartName uploadId i) with
      | (_, Some err) => inl (errgo.Mask err [errgo.IsErrNotFound])
      | (h, None) => copyParts s uploadId h (i + 1) rest
      end
  end.

(** The hash [setUploadHash] computes for a document with no hash yet. *)
Definition wholeHash (s : Store B) (uploadId : string) (udoc : uploadDoc.t)
    : outcome string :=
  if decide (length (uploadDoc.Parts udoc) = 1%nat)
  then
    match uploadDoc.Parts udoc !! 0%nat with
    | Some (Some p) => Ok (PartInfo.Hash p)
    | _ => Panics
    end
  else
    match copyParts s uploadId [] 0 (uploadDoc.Parts udoc) with
    | inl err => Fail err
    | inr h => Ok (sha384hex h)
    end.

Definition setUploadHash (s : Store B) (uploadId : string) (udoc : uploadDoc.t)
    : Store B * outcome string :=
  if decide (uploadDoc.Hash udoc ≠ "") then (s, Ok (uploadDoc.Hash udoc))
  else
    match wholeHash s uploadId udoc with
    | Ok hash =>
        let '(c, err) := mgo.UpdateId (uploadc s) uploadId (mgo.setHash hash) in
        match err with
        | None => (withUploadc s c, Ok hash)
        | Some err =>
            if errgo.IsMgoErrNotFound err then (withUploadc s c, Fail ErrNotFound)
            else (withUploadc s c, Fail (errgo.Notef err MsgCouldNotUpdateHash))
        end
    | Fail err => (s, Fail err)
    | Panics => (s, Panics)
    end.

(** The first loop of [FinishUpload], over [range parts] at index [i],
    reading [udoc.Parts[i]]. *)
Fixpoint checkParts (uparts : list (option PartInfo.t)) (i : nat)
    (parts : list Part.t) : outcome unit :=
  match parts with
  | [] => Ok tt
  | p :: rest =>
      match uparts !! i with
      | None => Panics
      | Some pu =>
          match pu with
          | None => Fail (errgo.Newf (MsgPartNotUploadedYet (Z.of_nat i)))
          | Some pu =>
              if negb (PartInfo.Complete pu)
              then Fail (errgo.Newf (MsgPartNotUploadedYet (Z.of_nat i)))
              else if decide (Part.Hash p ≠ PartInfo.Hash pu)
              then Fail (errgo.Newf
                           (MsgHashMismatchOnPart (Z.of_nat i) (Part.Hash p) (PartInfo.Hash pu)))
              else checkParts uparts (S i) rest
          end
      end
  end.

(** The last loop of [FinishUpload], over [range udoc.Parts] at index
    [i], writing [idx.Sizes[i]]. *)
Fixpoint fillSizes (sizes : list Z) (i : nat) (uparts : list (option PartInfo.t))
    : outcome (list Z) :=
  match uparts with
  | [] => Ok sizes
  | pu :: rest =>
      match pu with
      | None => Panics
      | Some pu =>
          if decide (i < length sizes)%nat
          then fillSizes (<[i := uint32 (PartInfo.Size pu)]> sizes) (S i) rest
          else Panics
      end
  end.

Definition FinishUpload (s : Store B) (uploadId : string) (parts : list Part.t)
    : Store B * outcome (MultipartIndex.t * string) :=
  match getUpload s uploadId with
  | inl err => (s, Fail (errgo.Mask err [errgo.IsErrNotFound]))
  | inr udoc =>
      if decide (length parts ≠ length (uploadDoc.Parts udoc))
      then (s, Fail (errgo.Newf
                       (MsgPartCountMismatch (Z.of_nat (length parts))
                          (Z.of_nat (length (uploadDoc.Parts udoc))))))
      else
        match checkParts (uploadDoc.Parts udoc) 0 parts with
        | Fail err => (s, Fail err)
        | Panics => (s, Panics)
        | Ok _ =>
            match checkPartSizes (uploadDoc.Parts udoc) (-1) 0 with
            | Some err => (s, Fail (errgo.Mask err []))
            | None =>
                let '(s, hash) := setUploadHash s uploadId udoc in
                match hash with
                | Fail err =>
                    if errgo.IsErrNotFound (errgo.Cause err)
                    then (s, Fail (errgo.Newf MsgUploadExpiredOrRemoved))
                    else (s, Fail (errgo.Mask err []))
                | Panics => (s, Panics)
                | Ok hash =>
                    match fillSizes (replicate (length parts) 0) 0 (uploadDoc.Parts udoc) with
                    | Ok sizes => (s, Ok (MultipartIndex.mk sizes, hash))
                    | Fail err => (s, Fail err)
                    | Panics => (s, Panics)
                    end
                end
            end
        end
  end.

(** The loop of [removeUpload] over [range udoc.Parts], at index [i],
    with the first error met so far. *)
Fixpoint removeBlobs (s : Store B) (uploadId : string) (i : Z)
    (parts : list (option PartInfo.t)) (removeErr : option error)
    : Store B * option error :=
  match parts with
  | [] => (s, removeErr)
  | _ :: rest =>
      let name := uploadPartName uploadId i in
      let '(b, err) := Remove (backend s) name in
      let s := withBackend s b in
      match err with
      | None => removeBlobs s uploadId (i + 1) rest removeErr
      | Some err =>
          if errgo.IsErrNotFound (errgo.Cause err)
          then removeBlobs s uploadId (i + 1) rest removeErr
          else
            removeBlobs (logErrorf s name err) uploadId (i + 1) rest
              (match removeErr with None => Some err | Some _ => removeErr end)
      end
  end.

(** [removeUpload] from the test of [removedDoc] on. *)
Definition removeUploadRest (s : Store B) (udoc : uploadDoc.t)
    (removedDoc removeParts : bool) : Store B * option error :=
  let '(s, err) :=
    if removedDoc then (s, None)
    else
      let '(c, err) := mgo.RemoveId (uploadc s) (uploadDoc.Id udoc) in
      match err with
      | Some err =>
          if errgo.IsMgoErrNotFound err then (withUploadc s c, None)
          else (withUploadc s c, Some (errgo.Mask err []))
      | None => (withUploadc s c, None)
      end in
  match err with
  | Some err => (s, Some err)
  | None =>
      if negb removeParts then (s, None)
      else
        let '(s, removeErr) :=
          removeBlobs s (uploadDoc.Id udoc) 0 (uploadDoc.Parts udoc) None in
        match removeErr with
        | Some err => (s, Some (errgo.Notef err MsgFailedToRemoveSomeData))
        | None => (s, None)
        end
  end.

Definition removeUpload (s : Store B) (udoc : uploadDoc.t) : Store B * option error :=
  if decide (uploadDoc.Hash udoc = "") then
    let '(c, err) := mgo.Remove (uploadc s) (uploadDoc.Id udoc) mgo.hashNotExists in
    match err with
    | None => removeUploadRest (withUploadc s c) udoc true true
    | Some err =>
        if errgo.IsMgoErrNotFound err
        then removeUploadRest (withUploadc s c) udoc false false
        else (withUploadc s c, Some (errgo.Mask err []))
    end
  else removeUploadRest s udoc false false.

Definition RemoveUpload (s : Store B) (uploadId : string) : Store B * option error :=
  match getUpload s uploadId with
  | inl err =>
      if errgo.IsErrNotFound (errgo.Cause err) then (s, None)
      else (s, Some (errgo.Mask err []))
  | inr udoc => removeUpload s udoc
  end.

(** The loop of [RemoveExpiredUploads] over the documents the cursor
    delivers. *)
Fixpoint removeEach (s : Store B) (cursor : list uploadDoc.t) : Store B * option error :=
  match cursor with
  | [] => (s, None)
  | udoc :: rest =>
      let '(s, err) := removeUpload s udoc in
      match err with
      | Some err => (s, Some (errgo.Mask err []))
      | None => removeEach s rest
      end
  end.

(** [RemoveExpiredUploads]; [now] is what [time.Now()] returns. *)
Definition RemoveExpiredUploads (s : Store B) (now : Z) : Store B * option error :=
  let '(cursor, itErr) := mgo.Find (uploadc s) (mgo.expiresBefore now) in
  let '(s, err) := removeEach s cursor in
  match err with
  | Some err => (s, Some err)
  | None =>
      match itErr with
      | Some err => (s, Some (errgo.Mask err []))
      | None => (s, None)
      end
  end.

End Multipart.

(** ** Information on an upload *)

Module UploadInfo.
Record t : Type := mk {
  Parts : list (option PartInfo.t);
  Expires : Z;
  Hash : string
}.
End UploadInfo.

Definition UploadInfo {B} (s : Store B) (uploadId : string) : outcome UploadInfo.t :=
  match getUpload s uploadId with
  | inl err => Fail (errgo.Mask err [errgo.IsErrNotFound])
  | inr udoc =>
      Ok (UploadInfo.mk (uploadDoc.Parts udoc) (uploadDoc.Expires udoc)
            (uploadDoc.Hash udoc))
  end.

(** ** The status checks of [GET /debug/status] (package [v4])

    The second document of [internal/storetesting/http.go]. Each check
    returns the text it reports and whether it passed. What the checks
    read from the database is their argument here: the result of
    [CollectionNames], the entities or logs a cursor delivers and the
    error of its [Close]. An error of the driver is the text of its
    [Error()]. *)

Module v4.

(** The inner loop of [checkCollections]: is [collName] among [names]? *)
Fixpoint nameFound (names : list string) (collName : string) : bool :=
  match names with
  | [] => false
  | name :: rest => if decide (name = collName) then true else nameFound rest collName
  end.

(** The outer loop of [checkCollections], over the names of
    [DB.Collections()], with the missing names gathered so far. *)
Fixpoint gatherMissing (names : list string) (collections : list string)
    (missing : list string) : list string :=
  match collections with
  | [] => missing
  | collName :: rest =>
      if nameFound names collName then gatherMissing names rest missing
      else gatherMissing names rest (missing ++ [collName])
  end.

(** [fmt.Sprintf("%s", l)] of a slice of strings. *)
Definition sprintStrings (l : list string) : string :=
  "[" +:+ String.concat " " l +:+ "]".

Definition checkCollections (collectionNames : string + list string)
    (collections : list string) : string * bool :=
  match collectionNames with
  | inl err => ("Cannot get collections: " +:+ err, false)
  | inr names =>
      let missing := gatherMissing names collections [] in
      if decide (length missing = 0%nat) then ("All required collections exist", true)
      else ("Missing collections: " +:+ sprintStrings missing, false)
  end.

(** The [Series] and [User] of the URL of an entity. *)
Record entityURL : Type := mkEntityURL { Series : string; User : string }.

(** The loop of [checkEntities] over the entities the cursor delivers. *)
Fixpoint countEntities (entities : list entityURL) (charms bundles promulgated : Z)
    : Z * Z * Z :=
  match entities with
  | [] => (charms, bundles, promulgated)
  | entity :: rest =>
      let '(charms, bundles) :=
        if decide (Series entity = "bundle") then (charms, bundles + 1)
        else (charms + 1, bundles) in
      let promulgated :=
        if decide (User entity = "") then promulgated + 1 else promulgated in
      countEntities rest charms bundles promulgated
  end.

Definition checkEntities (entities : list entityURL) (closeErr : option string)
    : string * bool :=
  let '(charms, bundles, promulgated) := countEntities entities 0 0 0 in
  match closeErr with
  | Some err => ("Cannot count entities: " +:+ err, false)
  | None =>
      (pretty charms +:+ " charms; " +:+ pretty bundles +:+ " bundles; "
         +:+ pretty promulgated +:+ " promulgated", true)
  end.

(** A log of the ingestion: [Msg] is the string that
    [json.Unmarshal(log.Data, &msg)] leaves in [msg], or [None] when it
    returns an error; [Time] is an instant counted from the zero
    [time.Time], so that [IsZero] is to be 0. *)
Record ingestionLog : Type := mkLog { Msg : option string; Time : Z }.

Definition IsZero (t : Z) : bool := bool_decide (t = 0).

(** The loop of [checkIngestion] over the logs the cursor delivers,
    with [start] and [end] as they stand. *)
Fixpoint scanLogs (logs : list ingestionLog) (start end_ : Z) : Z * Z :=
  match logs with
  | [] => (start, end_)
  | log :: rest =>
      match Msg log with
      | None => scanLogs rest start end_
      | Some msg =>
          let start :=
            if IsZero start && String.prefix "ingestion started" msg
            then Time log else start in
          let end_ :=
            if IsZero end_ && String.prefix "ingestion completed" msg
            then Time log else end_ in
          if negb (IsZero start) && negb (IsZero end_) then (start, end_)
          else scanLogs rest start end_
      end
  end.

(** [checkIngestion]; [rfc3339] is [Time.Format(time.RFC3339)]. *)
Definition checkIngestion (rfc3339 : Z → string) (logs : list ingestionLog)
    (closeErr : option string) : string * bool :=
  let '(start, end_) := scanLogs logs 0 0 in
  match closeErr with
  | Some err => ("Cannot query ingestion logs: " +:+ err, false)
  | None =>
      ("started: " +:+ rfc3339 start +:+ ", completed: " +:+ rfc3339 end_,
       negb (IsZero start || IsZero end_))
  end.

End v4.

(** ** An in-memory backend

    Blobs are kept by name; removing a name in [stuck] fails with an
    error of the backend's own. Used to run the operations on concrete
    stores. *)

Record memBackend : Type := mkMem {
  blobs : gmap string (list Byte.byte);
  stuck : list string
}.

#[global] Instance memBackend_Backend : Backend memBackend := {|
  Put b r name size hash :=
    match rdErr r with
    | Some err => (b, Some err)
    | None => (mkMem (<[name := rdData r]> (blobs b)) (stuck b), None)
    end;
  Open b name :=
    match blobs b !! name with
    | Some data => inr (mkReader data None, Z.of_nat (length data))
    | None => inl ErrNotFound
    end;
  Remove b name :=
    if decide (name ∈ stuck b) then (b, Some (Foreign "remove failed"))
    else
      match blobs b !! name with
      | Some _ => (mkMem (delete name (blobs b)) (stuck b), None)
      | None => (b, Some ErrNotFound)
      end
|}.

(** A stand-in for the hash function on concrete stores: the bytes
    themselves, as a string. *)
Definition plainHex (data : list Byte.byte) : string :=
  String.string_of_list_ascii (Ascii.ascii_of_byte <$> data).

Definition noFault : mgo.operation → option error := λ _, None.

Definition emptyStore : Store memBackend :=
  mkStore (mgo.mkCollection ∅ noFault None) (mkMem ∅ []) [].

Definition bytes (s : string) : Reader :=
  mkReader (Ascii.byte_of_ascii <$> String.list_ascii_of_string s) None.

(** ** Notions used in the statements *)

(** What [FinishUpload] asks of an expected part and of the record
    stored at its index: the record is there, complete, with that hash. *)
Definition partMatches (p : Part.t) (pu : option PartInfo.t) : Prop :=
  ∃ q, pu = Some q ∧ PartInfo.Complete q = true ∧ Part.Hash p = PartInfo.Hash q.

(** The errors with which [FinishUpload] turns down the expected parts
    [parts] against the stored records [uparts]: all are made by
    [errgo.Newf], with no cause of their own. *)
Inductive finishRejection (parts : list Part.t) (uparts : list (option PartInfo.t))
    : error → Prop :=
  | RejectCount :
      length parts ≠ length uparts →
      finishRejection parts uparts
        (errgo.Newf (MsgPartCountMismatch (Z.of_nat (length parts))
                       (Z.of_nat (length uparts))))
  | RejectNotUploaded (i : nat) p :
      parts !! i = Some p →
      (¬ ∃ q, uparts !! i = Some (Some q) ∧ PartInfo.Complete q = true) →
      finishRejection parts uparts (errgo.Newf (MsgPartNotUploadedYet (Z.of_nat i)))
  | RejectHash (i : nat) p q :
      parts !! i = Some p → uparts !! i = Some (Some q) →
      Part.Hash p ≠ PartInfo.Hash q →
      finishRejection parts uparts
        (errgo.Newf (MsgHashMismatchOnPart (Z.of_nat i) (Part.Hash p) (PartInfo.Hash q))).

(** The blobs of parts [0], [1], ... of an upload hold [datas] and read
    back without error. *)
Definition partBlobs {B} `{!Backend B} (s : Store B) (uploadId : string)
    (datas : list (list Byte.byte)) : Prop :=
  ∀ (j : nat) data, datas !! j = Some data →
    ∃ size, Open (backend s) (uploadPartName uploadId (Z.of_nat j))
            = inr (mkReader data None, size).

(** Every part record of the collection holds a size that [PutPart]
    accepts. *)
Definition sizesAccepted (c : mgo.Collection) : Prop :=
  ∀ id d (j : nat) q,
    mgo.docs c !! id = Some d → mgo.parts d !! j = Some (Some q) →
    0 < PartInfo.Size q < maxPartSize.

(** No upload of the collection holds two part records below the
    minimum size. *)
Definition atMostOneSmall (c : mgo.Collection) : Prop :=
  ∀ id d (i j : nat) p q,
    mgo.docs c !! id = Some d →
    mgo.parts d !! i = Some (Some p) → mgo.parts d !! j = Some (Some q) →
    PartInfo.Size p < minPartSize → PartInfo.Size q < minPartSize → i = j.

(** A log that [checkIngestion] takes as the start (with
    ["ingestion started"]) or the end (with ["ingestion completed"]) of
    an ingestion: its message has the prefix and its time is not the
    zero time. *)
Definition marks (prefix : string) (log : v4.ingestionLog) : Prop :=
  ∃ msg, v4.Msg log = Some msg ∧ String.prefix prefix msg = true ∧ v4.Time log ≠ 0.

(** The sizes [FinishUpload] writes in the index for the stored records. *)
Definition sizesOf (uparts : list (option PartInfo.t)) : list Z :=
  (λ pu, match pu with Some q => uint32 (PartInfo.Size q) | None => 0 end) <$> uparts.

(** Removing the blobs [names] one after the other, going on after a
    failure: the backend at the end, and the removals that failed other
    than by the blob not being there. *)
Fixpoint removeAll {B} `{!Backend B} (b : B) (names : list string)
    : B * list (string * error) :=
  match names with
  | [] => (b, [])
  | name :: rest =>
      let '(b1, err) := Remove b name in
      let '(b2, failed) := removeAll b1 rest in
      match err with
      | Some err =>
          if errgo.IsErrNotFound (errgo.Cause err) then (b2, failed)
          else (b2, (name, err) :: failed)
      | None => (b2, failed)
      end
  end.

(** The names of the blobs of parts [i], ..., [i + n - 1] of an upload. *)
Definition partNames (uploadId : string) (i n : nat) : list string :=
  (λ j, uploadPartName uploadId (Z.of_nat j)) <$> seq i n.

(** ** Sample stores

    Built with the operations themselves on the in-memory backend. *)

Definition sampleOnePart : Store memBackend :=
  (PutPart (NewUpload emptyStore "u1" 100).1 "u1" 0 (bytes "aaa") 5242880 "h0").1.

Definition sampleTwoParts : Store memBackend :=
  (PutPart sampleOnePart "u1" 1 (bytes "bb") 5242880 "h1").1.

(** The upload of the end-to-end example: a second, last part of 1024
    bytes. *)
Definition sampleSmallLast : Store memBackend :=
  (PutPart sampleOnePart "u1" 1 (bytes "bb") 1024 "h1").1.

Definition sampleFinished : Store memBackend :=
  (FinishUpload plainHex sampleTwoParts "u1" [Part.mk "h0"; Part.mk "h1"]).1.

(** Two uploads that expire at 100, on a backend that cannot remove the
    blob of the first. *)
Definition sampleTwoUploads : Store memBackend :=
  let s := mkStore (mgo.mkCollection ∅ noFault None) (mkMem ∅ ["u1/0"]) [] in
  let s := (NewUpload s "u1" 100).1 in
  let s := (PutPart s "u1" 0 (bytes "aaa") 5242880 "h0").1 in
  let s := (NewUpload s "u2" 100).1 in
  (PutPart s "u2" 0 (bytes "bb") 5242880 "k0").1.

(** The documents of upload [u1] in these stores, and the records read
    from them. *)
Definition part0 : PartInfo.t := PartInfo.mk "h0" 5242880 true.
Definition part1 : PartInfo.t := PartInfo.mk "h1" 5242880 true.

Definition docOnePart : mgo.document := mgo.mkDocument None 100 [Some part0].
Definition docTwoParts : mgo.document := mgo.mkDocument None 100 [Some part0; Some part1].
Definition docFinished : mgo.document :=
  mgo.mkDocument (Some "aaabb") 100 [Some part0; Some part1].

Definition readOnePart : uploadDoc.t := mgo.decode "u1" docOnePart.
Definition readTwoParts : uploadDoc.t := mgo.decode "u1" docTwoParts.
Definition readFinished : uploadDoc.t := mgo.decode "u1" docFinished.

Definition expectedTwo : list Part.t := [Part.mk "h0"; Part.mk "h1"].
Definition dataTwo : list (list Byte.byte) := [rdData (bytes "aaa"); rdData (bytes "bb")].

(** A new upload [u1] without parts, a reader that fails, and the store
    of the two parts once the blob of the second one is lost. *)
Definition sampleNew : Store memBackend := (NewUpload emptyStore "u1" 100).1.

Definition docNew : mgo.document := mgo.mkDocument None 100 [].

Definition brokenReader : Reader := mkReader [] (Some (Foreign "read failed")).

Definition sampleBlobLost : Store memBackend :=
  mkStore (uploadc sampleTwoParts)
    (mkMem (delete "u1/1" (blobs (backend sampleTwoParts))) []) [].

(** * Properties *)

(** ** Arrays of part records *)

Lemma setElem_length {A} (l : list (option A)) n x :
  length (mgo.setElem l n x) = (length l `max` S n)%nat.
Proof.
  unfold mgo.setElem. case_decide.
  - rewrite length_insert. lia.
  - rewrite !length_app, length_replicate. simpl. lia.
Qed.

Lemma setElem_lookup_eq {A} (l : list (option A)) n x :
  mgo.setElem l n x !! n = Some (Some x).
Proof.
  unfold mgo.setElem. case_decide.
  - by apply list_lookup_insert_eq.
  - rewrite lookup_app_r by lia.
    rewrite lookup_app_r by (rewrite length_replicate; lia).
    rewrite length_replicate. by replace (n - length l - (n - length l))%nat with 0%nat by lia.
Qed.

(** Another element that holds a record after the update held the same
    record before: the padding is made of nulls. *)
Lemma setElem_lookup_ne {A} (l : list (option A)) n x j y :
  j ≠ n → mgo.setElem l n x !! j = Some (Some y) → l !! j = Some (Some y).
Proof.
  intros Hne. unfold mgo.setElem. case_decide.
  - by rewrite list_lookup_insert_ne.
  - destruct (decide (j < length l)%nat) as [Hlt|Hge].
    + by rewrite lookup_app_l.
    + rewrite lookup_app_r by lia.
      destruct (decide (j - length l < n - length l)%nat).
      * rewrite lookup_app_l by (rewrite length_replicate; lia).
        rewrite lookup_replicate_2 by lia. done.
      * rewrite lookup_app_r by (rewrite length_replicate; lia).
        rewrite length_replicate.
        destruct (j - length l - (n - length l))%nat as [|k] eqn:E; [lia|].
        simpl. by rewrite lookup_nil.
Qed.

(** ** The collection *)

Lemma FindId_inr c id udoc :
  mgo.FindId c id = inr udoc →
  mgo.fault c mgo.OpFindOne = None ∧
  ∃ d, mgo.docs c !! id = Some d ∧ udoc = mgo.decode id d.
Proof.
  unfold mgo.FindId. destruct (mgo.fault c mgo.OpFindOne); [done|].
  destruct (mgo.docs c !! id) as [d|]; [|done].
  intros [= <-]. eauto.
Qed.

Lemma FindId_found c id d :
  mgo.fault c mgo.OpFindOne = None → mgo.docs c !! id = Some d →
  mgo.FindId c id = inr (mgo.decode id d).
Proof. intros Hf Hd. unfold mgo.FindId. by rewrite Hf, Hd. Qed.

Lemma Update_ok c id sel update c' :
  mgo.Update c id sel update = (c', None) →
  mgo.fault c mgo.OpUpdate = None ∧
  ∃ d, mgo.docs c !! id = Some d ∧ sel d = true ∧
       c' = mgo.withDocs c (<[id := update d]> (mgo.docs c)).
Proof.
  unfold mgo.Update. destruct (mgo.fault c mgo.OpUpdate); [done|].
  destruct (mgo.docs c !! id) as [d|]; [|done].
  destruct (sel d) eqn:Hsel; [|done].
  intros [= <-]. eauto.
Qed.

Lemma Update_cases c id sel update c' err :
  mgo.Update c id sel update = (c', err) →
  c' = c ∨
  ∃ d, mgo.docs c !! id = Some d ∧
       c' = mgo.withDocs c (<[id := update d]> (mgo.docs c)).
Proof.
  unfold mgo.Update. destruct (mgo.fault c mgo.OpUpdate); [intros [= <- _]; by left|].
  destruct (mgo.docs c !! id) as [d|]; [|intros [= <- _]; by left].
  destruct (sel d); intros [= <- _]; [right; eauto|by left].
Qed.

(** Writing a part record of an accepted size keeps the sizes accepted. *)
Lemma setPart_sizesAccepted c id d n p :
  sizesAccepted c → mgo.docs c !! id = Some d →
  0 < PartInfo.Size p < maxPartSize →
  sizesAccepted (mgo.withDocs c (<[id := mgo.setPart n p d]> (mgo.docs c))).
Proof.
  intros Hacc Hd Hp id' d' j q Hd' Hj. simpl in Hd'.
  destruct (decide (id' = id)) as [->|Hne].
  - rewrite lookup_insert_eq in Hd'. injection Hd' as <-. simpl in Hj.
    destruct (decide (j = n)) as [->|Hjn].
    + rewrite setElem_lookup_eq in Hj. by injection Hj as <-.
    + apply (Hacc id d j q Hd). by apply (setElem_lookup_ne _ n p).
  - rewrite lookup_insert_ne in Hd' by done. by apply (Hacc id' d' j q).
Qed.

Lemma Update_found c id sel update d :
  mgo.fault c mgo.OpUpdate = None → mgo.docs c !! id = Some d → sel d = true →
  mgo.Update c id sel update = (mgo.withDocs c (<[id := update d]> (mgo.docs c)), None).
Proof. intros Hf Hd Hsel. unfold mgo.Update. by rewrite Hf, Hd, Hsel. Qed.

Lemma Remove_found c id sel d :
  mgo.fault c mgo.OpRemove = None → mgo.docs c !! id = Some d → sel d = true →
  mgo.Remove c id sel = (mgo.withDocs c (delete id (mgo.docs c)), None).
Proof. intros Hf Hd Hsel. unfold mgo.Remove. by rewrite Hf, Hd, Hsel. Qed.

Lemma Remove_refused c id sel d :
  mgo.fault c mgo.OpRemove = None → mgo.docs c !! id = Some d → sel d = false →
  mgo.Remove c id sel = (c, Some MgoErrNotFound).
Proof. intros Hf Hd Hsel. unfold mgo.Remove. by rewrite Hf, Hd, Hsel. Qed.

(** A removal leaves every other document as it was, whatever it returns. *)
Lemma Remove_other c id sel c' err id' :
  mgo.Remove c id sel = (c', err) → id' ≠ id →
  mgo.docs c' !! id' = mgo.docs c !! id'.
Proof.
  unfold mgo.Remove. intros Hr Hne.
  destruct (mgo.fault c mgo.OpRemove); [by injection Hr as <- _|].
  destruct (mgo.docs c !! id) as [d|]; [|by injection Hr as <- _].
  destruct (sel d); injection Hr as <- _; [|done].
  simpl. by rewrite lookup_delete_ne.
Qed.

(** ** The check of part sizes *)

Lemma checkPartSizesFrom_None i parts part :
  checkPartSizesFrom i parts part = None ↔
  ∀ (j : nat) p, parts !! j = Some (Some p) → i + Z.of_nat j ≠ part →
                 minPartSize ≤ PartInfo.Size p.
Proof.
  revert i. induction parts as [|pu rest IH]; intros i; simpl.
  - split; [|done]. intros _ j p Hj. by rewrite lookup_nil in Hj.
  - destruct pu as [q|].
    + case_decide as Hq.
      * split; [done|]. intros Hall. exfalso.
        specialize (Hall 0%nat q eq_refl). lia.
      * rewrite IH. split.
        -- intros Hall [|j] p Hj Hne; simpl in Hj.
           ++ injection Hj as <-. lia.
           ++ apply (Hall j p Hj). lia.
        -- intros Hall j p Hj Hne. apply (Hall (S j) p Hj). lia.
    + rewrite IH. split.
      * intros Hall [|j] p Hj Hne; simpl in Hj; [done|].
        apply (Hall j p Hj). lia.
      * intros Hall j p Hj Hne. apply (Hall (S j) p Hj). lia.
Qed.

Lemma checkPartSizes_None parts part size :
  checkPartSizes parts part size = None ↔
  ¬ (part >= 0 ∧ part < Z.of_nat (length parts) - 1 ∧ size < minPartSize) ∧
  ∀ (j : nat) p, parts !! j = Some (Some p) → Z.of_nat j ≠ part →
                 minPartSize ≤ PartInfo.Size p.
Proof.
  unfold checkPartSizes. case_decide as Hc.
  - split; [done|]. by intros [? _].
  - rewrite checkPartSizesFrom_None. split.
    + intros Hall. split; [done|]. intros j p Hj Hne. apply (Hall j p Hj). lia.
    + intros [_ Hall] j p Hj Hne. apply (Hall j p Hj). lia.
Qed.

(** The check that let a part through lets it through again once its
    record is stored. *)
Lemma checkPartSizes_setElem parts part size p :
  0 ≤ part →
  checkPartSizes parts part size = None →
  checkPartSizes (mgo.setElem parts (Z.to_nat part) p) part size = None.
Proof.
  intros Hpos. rewrite !checkPartSizes_None. intros [Hfirst Hall]. split.
  - rewrite setElem_length. intros (Hge & Hlt & Hsize). apply Hfirst.
    split_and!; [done| |done]. lia.
  - intros j q Hj Hne. apply (Hall j q); [|done].
    assert (j ≠ Z.to_nat part) as Hne' by lia.
    exact (setElem_lookup_ne _ _ _ _ _ Hne' Hj).
Qed.

(** ** The upload tracker *)

Section Tracker.

Context {B : Type} `{!Backend B}.
Implicit Types (s : Store B) (r : Reader).

Lemma getUpload_inr s uploadId udoc :
  getUpload s uploadId = inr udoc →
  mgo.fault (uploadc s) mgo.OpFindOne = None ∧
  ∃ d, mgo.docs (uploadc s) !! uploadId = Some d ∧ udoc = mgo.decode uploadId d.
Proof.
  unfold getUpload. destruct (mgo.FindId _ _) as [err|udoc'] eqn:Hfind.
  - by destruct (errgo.IsMgoErrNotFound err).
  - intros [= <-]. by apply FindId_inr.
Qed.

Lemma getUpload_found s uploadId d :
  mgo.fault (uploadc s) mgo.OpFindOne = None →
  mgo.docs (uploadc s) !! uploadId = Some d →
  getUpload s uploadId = inr (mgo.decode uploadId d).
Proof. intros Hf Hd. unfold getUpload. by rewrite (FindId_found _ _ d). Qed.

Lemma storedPart_Some udoc part p :
  0 ≤ part →
  storedPart udoc part = Some p ↔
  uploadDoc.Parts udoc !! Z.to_nat part = Some (Some p).
Proof.
  intros Hpos. unfold storedPart. case_decide as Hlt.
  - destruct (uploadDoc.Parts udoc !! Z.to_nat part) as [[q|]|]; simpl;
      split; congruence.
  - split; [done|]. intros Hl. apply lookup_lt_Some in Hl. lia.
Qed.

Lemma initializePart_ok s uploadId part hash size s1 :
  initializePart s uploadId part hash size = (s1, None) →
  ∃ d, mgo.docs (uploadc s) !! uploadId = Some d ∧
       s1 = withUploadc s
              (mgo.withDocs (uploadc s)
                 (<[uploadId := mgo.setPart (Z.to_nat part) (PartInfo.mk hash size false) d]>
                    (mgo.docs (uploadc s)))).
Proof.
  unfold initializePart.
  destruct (mgo.Update _ _ _ _) as [c [err|]] eqn:Hup.
  - by destruct (errgo.IsMgoErrNotFound err).
  - intros [= <-]. apply Update_ok in Hup as (_ & d & Hd & _ & ->). eauto.
Qed.

Lemma putAndMarkComplete_ok s uploadId part r size hash s' :
  putAndMarkComplete s uploadId part r size hash = (s', None) →
  ∃ d, mgo.docs (uploadc s) !! uploadId = Some d ∧
       uploadc s' =
         mgo.withDocs (uploadc s)
           (<[uploadId := mgo.setPart (Z.to_nat part) (PartInfo.mk hash size true) d]>
              (mgo.docs (uploadc s))).
Proof.
  unfold putAndMarkComplete.
  destruct (Put _ _ _ _ _) as [b [err|]]; [done|].
  destruct (mgo.UpdateId _ _ _) as [c [err|]] eqn:Hup; [done|].
  intros [= <-]. apply Update_ok in Hup as (_ & d & Hd & _ & ->). eauto.
Qed.

(** Once the complete record of a part is stored, putting that part
    again with the same size and hash returns at once. *)
Lemma PutPart_complete s uploadId part r size hash d :
  0 ≤ part < maxParts → 0 < size < maxPartSize →
  mgo.fault (uploadc s) mgo.OpFindOne = None →
  mgo.docs (uploadc s) !! uploadId = Some d →
  checkPartSizes (mgo.parts d) part size = None →
  mgo.parts d !! Z.to_nat part = Some (Some (PartInfo.mk hash size true)) →
  PutPart s uploadId part r size hash = (s, None).
Proof.
  intros Hpart Hsize Hf Hd Hcheck Hp. unfold PutPart.
  repeat (case_decide; [lia|]).
  rewrite (getUpload_found _ _ d Hf Hd). simpl. rewrite Hcheck.
  assert (storedPart (mgo.decode uploadId d) part = Some (PartInfo.mk hash size true)) as ->.
  { apply storedPart_Some; [lia|done]. }
  simpl. by case_decide.
Qed.

Lemma NewUpload_sizesAccepted s oid expires :
  sizesAccepted (uploadc s) → sizesAccepted (uploadc (NewUpload s oid expires).1).
Proof.
  intros Hacc. unfold NewUpload, mgo.Insert.
  destruct (mgo.fault (uploadc s) mgo.OpInsert); [done|]. simpl.
  destruct (mgo.docs (uploadc s) !! oid) eqn:Hfree; [done|]. simpl.
  intros id d j q Hd Hj. simpl in Hd.
  destruct (decide (id = oid)) as [->|Hne].
  - rewrite lookup_insert_eq in Hd. injection Hd as <-. done.
  - rewrite lookup_insert_ne in Hd by done. by apply (Hacc id d j q).
Qed.

(** [PutPart] only ever records sizes above 0 and below
    [maxPartSize]. *)
Lemma PutPart_sizesAccepted s uploadId part r size hash s' err :
  PutPart s uploadId part r size hash = (s', err) →
  sizesAccepted (uploadc s) → sizesAccepted (uploadc s').
Proof.
  intros Hput Hacc. unfold PutPart in Hput.
  repeat (case_decide; [by injection Hput as <- _|]).
  assert (∀ s0 s1 e, sizesAccepted (uploadc s0) →
            putAndMarkComplete s0 uploadId part r size hash = (s1, e) →
            sizesAccepted (uploadc s1)) as Hmark.
  { intros s0 s1 e Hacc0. unfold putAndMarkComplete.
    destruct (Put _ _ _ _ _) as [b [e0|]]; [by intros [= <- _]|].
    destruct (mgo.UpdateId _ _ _) as [c e1] eqn:Hup.
    apply Update_cases in Hup as [->|(d & Hd & ->)].
    - by destruct e1; intros [= <- _].
    - destruct e1; intros [= <- _]; simpl;
        apply setPart_sizesAccepted; simpl; try done; lia. }
  destruct (getUpload s uploadId) as [?|udoc]; [by injection Hput as <- _|].
  destruct (checkPartSizes _ _ _); [by injection Hput as <- _|].
  destruct (storedPart udoc part) as [p|].
  - case_decide; [by injection Hput as <- _|].
    destruct (PartInfo.Complete p); [by injection Hput as <- _|].
    by apply (Hmark s s' err).
  - case_decide; [by injection Hput as <- _|].
    destruct (initializePart s uploadId part hash size) as [s1 e1] eqn:Hinit.
    assert (sizesAccepted (uploadc s1)) as Hacc1.
    { unfold initializePart in Hinit.
      destruct (mgo.Update _ _ _ _) as [c e] eqn:Hup.
      apply Update_cases in Hup as [->|(d & Hd & ->)].
      - destruct e as [e|]; [destruct (errgo.IsMgoErrNotFound e)|];
          by injection Hinit as <- _.
      - assert (sizesAccepted
                  (mgo.withDocs (uploadc s)
                     (<[uploadId := mgo.setPart (Z.to_nat part)
                                      (PartInfo.mk hash size false) d]>
                        (mgo.docs (uploadc s))))) as Hset.
        { apply setPart_sizesAccepted; simpl; try done; lia. }
        destruct e as [e|]; [destruct (errgo.IsMgoErrNotFound e)|];
          by injection Hinit as <- _. }
    destruct e1; [by injection Hput as <- _|].
    by apply (Hmark s1 s' err).
Qed.

(** C7. [PutPart] is idempotent: when [PutPart(id, k, r, size, hash)]
    has succeeded, the same call again, whatever its reader delivers,
    succeeds and changes nothing: neither the part record, nor any
    other part of the store. *)
Theorem PutPart_idempotent s uploadId part r size hash s' :
  PutPart s uploadId part r size hash = (s', None) →
  ∀ r', PutPart s' uploadId part r' size hash = (s', None).
Proof.
  intros Hput r'. unfold PutPart in Hput.
  case_decide as Hneg; [done|]. case_decide as Hmax; [done|].
  case_decide as Hs0; [done|]. case_decide as Hs1; [done|].
  destruct (getUpload s uploadId) as [?|udoc] eqn:Hget; [done|].
  apply getUpload_inr in Hget as (Hf & d & Hd & ->).
  destruct (checkPartSizes _ part size) as [?|] eqn:Hcheck; [done|].
  simpl in Hcheck.
  destruct (storedPart _ part) as [p|] eqn:Hstored.
  - apply storedPart_Some in Hstored; [|lia]. simpl in Hstored.
    case_decide as Hhash; [done|].
    destruct (PartInfo.Complete p) eqn:Hcomplete.
    + injection Hput as <-. unfold PutPart.
      repeat (case_decide; [lia|]).
      rewrite (getUpload_found _ _ d Hf Hd). simpl. rewrite Hcheck.
      assert (storedPart (mgo.decode uploadId d) part = Some p) as ->.
      { apply storedPart_Some; [lia|done]. }
      case_decide; [done|]. by rewrite Hcomplete.
    + apply putAndMarkComplete_ok in Hput as Hdone.
      destruct Hdone as (d0 & Hd0 & Hc').
      assert (d0 = d) as -> by congruence.
      apply (PutPart_complete _ _ _ _ _ _
               (mgo.setPart (Z.to_nat part) (PartInfo.mk hash size true) d)).
      * lia.
      * lia.
      * by rewrite Hc'.
      * rewrite Hc'. simpl. apply lookup_insert_eq.
      * simpl. apply checkPartSizes_setElem; [lia|done].
      * simpl. apply setElem_lookup_eq.
  - case_decide as Hfin; [done|].
    destruct (initializePart s uploadId part hash size) as [s1 [?|]] eqn:Hinit; [done|].
    apply initializePart_ok in Hinit as (d0 & Hd0 & ->).
    assert (d0 = d) as -> by congruence.
    apply putAndMarkComplete_ok in Hput as Hdone.
    destruct Hdone as (d1 & Hd1 & Hc').
    simpl in Hd1. rewrite lookup_insert_eq in Hd1. injection Hd1 as <-.
    apply (PutPart_complete _ _ _ _ _ _
             (mgo.setPart (Z.to_nat part) (PartInfo.mk hash size true)
                (mgo.setPart (Z.to_nat part) (PartInfo.mk hash size false) d))).
    + lia.
    + lia.
    + by rewrite Hc'.
    + rewrite Hc'. simpl. apply lookup_insert_eq.
    + simpl. apply checkPartSizes_setElem; [lia|].
      apply checkPartSizes_setElem; [lia|done].
    + simpl. apply setElem_lookup_eq.
Qed.

(** C8. Once a part record with some hash exists at an index, a
    [PutPart] for that index with a different hash fails and leaves the
    store, and so the recorded hash, as it was; the error is the
    hash mismatch whenever the part number and the size pass the checks
    that come before the comparison of the hashes. *)
Theorem PutPart_hash_conflict s uploadId part r size hashB d p :
  mgo.docs (uploadc s) !! uploadId = Some d →
  0 ≤ part →
  mgo.parts d !! Z.to_nat part = Some (Some p) →
  PartInfo.Hash p ≠ hashB →
  (∃ err, PutPart s uploadId part r size hashB = (s, Some err)) ∧
  (mgo.fault (uploadc s) mgo.OpFindOne = None →
   part < maxParts → 0 < size < maxPartSize →
   checkPartSizes (mgo.parts d) part size = None →
   PutPart s uploadId part r size hashB
     = (s, Some (errgo.Newf MsgHashMismatchUploaded))).
Proof.
  intros Hd Hpos Hp Hne.
  assert (∀ udoc, getUpload s uploadId = inr udoc →
                  storedPart udoc part = Some p) as Hstored.
  { intros udoc (_ & d' & Hd' & ->)%getUpload_inr.
    apply storedPart_Some; [done|]. simpl. congruence. }
  split.
  - unfold PutPart.
    repeat (case_decide; [by eauto|]).
    destruct (getUpload s uploadId) as [?|udoc] eqn:Hget; [by eauto|].
    destruct (checkPartSizes _ part size); [by eauto|].
    rewrite (Hstored udoc eq_refl).
    case_decide; [by eauto|done].
  - intros Hf Hmax Hsize Hcheck. unfold PutPart.
    repeat (case_decide; [lia|]).
    rewrite (getUpload_found _ _ d Hf Hd) in Hstored |- *.
    simpl. rewrite Hcheck, (Hstored _ eq_refl).
    by case_decide.
Qed.

End Tracker.

(** ** The finalizer *)

Lemma uint32_small x : 0 < x < maxPartSize → uint32 x = x.
Proof.
  unfold maxPartSize, uint32. change (Z.shiftl 1 32) with (2 ^ 32).
  intros Hx. apply Z.mod_small. lia.
Qed.

Lemma checkParts_cases uparts i parts :
  (i + length parts ≤ length uparts)%nat →
  (checkParts uparts i parts = Ok tt ∧
   ∀ (j : nat) p, parts !! j = Some p →
                  ∃ pu, uparts !! (i + j)%nat = Some pu ∧ partMatches p pu) ∨
  (∃ (j : nat) p, parts !! j = Some p ∧
     (((¬ ∃ q, uparts !! (i + j)%nat = Some (Some q) ∧ PartInfo.Complete q = true) ∧
       checkParts uparts i parts
         = Fail (errgo.Newf (MsgPartNotUploadedYet (Z.of_nat (i + j))))) ∨
      (∃ q, uparts !! (i + j)%nat = Some (Some q) ∧ Part.Hash p ≠ PartInfo.Hash q ∧
            checkParts uparts i parts
              = Fail (errgo.Newf (MsgHashMismatchOnPart (Z.of_nat (i + j))
                                    (Part.Hash p) (PartInfo.Hash q)))))).
Proof.
  revert i. induction parts as [|p rest IH]; intros i Hlen; simpl in *.
  - left. split; [done|]. intros j p Hj. by rewrite lookup_nil in Hj.
  - destruct (uparts !! i) as [pu|] eqn:Hi;
      [|apply lookup_ge_None in Hi; lia].
    destruct pu as [q|].
    + destruct (PartInfo.Complete q) eqn:Hc; simpl.
      * case_decide as Hh.
        -- right. exists 0%nat, p. split; [done|]. right. exists q.
           by rewrite Nat.add_0_r.
        -- destruct (IH (S i) ltac:(lia)) as [[Hok Hall]|(j & p' & Hj & Hbad)].
           ++ left. split; [done|]. intros [|j] p' Hj; simpl in Hj.
              ** injection Hj as <-. exists (Some q).
                 rewrite Nat.add_0_r. split; [done|]. by exists q.
              ** replace (i + S j)%nat with (S i + j)%nat by lia. by apply Hall.
           ++ right. exists (S j), p'. split; [done|].
              by replace (i + S j)%nat with (S i + j)%nat by lia.
      * right. exists 0%nat, p. split; [done|]. left.
        rewrite Nat.add_0_r. split; [|done].
        intros (q' & Hq' & Hc'). congruence.
    + right. exists 0%nat, p. split; [done|]. left.
      rewrite Nat.add_0_r. split; [|done].
      intros (q' & Hq' & Hc'). congruence.
Qed.

(** With as many expected parts as stored records, the first loop of
    [FinishUpload] passes exactly when every expected part matches, and
    otherwise returns one of the rejections. *)
Lemma checkParts_matches uparts parts :
  length parts = length uparts →
  (Forall2 partMatches parts uparts ∧ checkParts uparts 0 parts = Ok tt) ∨
  (¬ Forall2 partMatches parts uparts ∧
   ∃ err, checkParts uparts 0 parts = Fail err ∧ finishRejection parts uparts err).
Proof.
  intros Hlen.
  destruct (checkParts_cases uparts 0 parts ltac:(lia))
    as [[Hok Hall]|(j & p & Hj & Hbad)].
  - left. split; [|done]. apply Forall2_same_length_lookup. split; [done|].
    intros j p pu Hp Hpu. destruct (Hall j p Hp) as (pu' & Hpu' & Hm).
    simpl in Hpu'. congruence.
  - right. simpl in Hbad. split.
    + intros HF. destruct (Forall2_lookup_l _ _ _ _ _ HF Hj) as (pu & Hpu & q & -> & Hc & Hh).
      destruct Hbad as [[Hno _]|(q' & Hq' & Hne & _)].
      * apply Hno. eauto.
      * congruence.
    + destruct Hbad as [[Hno ->]|(q & Hq & Hne & ->)].
      * eexists. split; [done|]. by eapply RejectNotUploaded.
      * eexists. split; [done|]. by eapply RejectHash.
Qed.

Lemma fillSizes_all uparts sizes i :
  Forall is_Some uparts →
  length sizes = (i + length uparts)%nat →
  fillSizes sizes i uparts = Ok (take i sizes ++ sizesOf uparts).
Proof.
  revert sizes i. induction uparts as [|pu rest IH]; intros sizes i Hall Hlen; simpl in *.
  - unfold sizesOf. simpl. rewrite app_nil_r, take_ge by lia. done.
  - apply Forall_cons in Hall as [[q ->] Hall].
    case_decide; [|lia].
    rewrite IH; [|done|rewrite length_insert; lia].
    f_equal. unfold sizesOf. simpl.
    rewrite (take_S_r _ _ (uint32 (PartInfo.Size q)))
      by (apply list_lookup_insert_eq; lia).
    rewrite take_insert_ge by lia. by rewrite <- app_assoc.
Qed.

Lemma fillSizes_Ok uparts sizes i sizes' :
  fillSizes sizes i uparts = Ok sizes' → Forall is_Some uparts.
Proof.
  revert sizes i. induction uparts as [|pu rest IH]; intros sizes i; simpl.
  - by constructor.
  - destruct pu as [q|]; [|done]. case_decide; [|done].
    intros Hrest. constructor; [by eexists|]. by eapply IH.
Qed.

(** When every record holds a size that [PutPart] accepts, the sizes of
    the index are the recorded sizes. *)
Lemma sizesOf_exact stored :
  Forall (λ q, 0 < PartInfo.Size q < maxPartSize) stored →
  sizesOf (Some <$> stored) = PartInfo.Size <$> stored.
Proof.
  unfold sizesOf. induction 1 as [|q rest Hq _ IH]; [done|].
  rewrite !fmap_cons. by rewrite IH, uint32_small.
Qed.

Lemma withUploadc_same {B} (s : Store B) : withUploadc s (uploadc s) = s.
Proof. by destruct s. Qed.

Section Finalizer.

Context {B : Type} `{!Backend B}.
Variable sha384hex : list Byte.byte → string.
Implicit Types (s : Store B).

Lemma copyBlob_read s w name data size :
  Open (backend s) name = inr (mkReader data None, size) →
  copyBlob s w name = (w ++ data, None).
Proof. intros Hopen. unfold copyBlob. by rewrite Hopen. Qed.

(** The loop over the parts writes the blobs to the hash one after the
    other, in the order of the indices. *)
Lemma copyParts_read s uploadId parts : ∀ (i : nat) h datas,
  length datas = length parts →
  (∀ (j : nat) data, datas !! j = Some data →
     ∃ size, Open (backend s) (uploadPartName uploadId (Z.of_nat (i + j)))
             = inr (mkReader data None, size)) →
  copyParts s uploadId h (Z.of_nat i) parts = inr (h ++ concat datas).
Proof.
  induction parts as [|pu rest IH]; intros i h datas Hlen Hblobs; simpl.
  - destruct datas; [|done]. simpl. by rewrite app_nil_r.
  - destruct datas as [|data datas]; [done|]. simpl in Hlen.
    destruct (Hblobs 0%nat data eq_refl) as [size Hopen].
    rewrite Nat.add_0_r in Hopen.
    rewrite (copyBlob_read _ _ _ _ _ Hopen).
    replace (Z.of_nat i + 1) with (Z.of_nat (S i)) by lia.
    rewrite (IH (S i) (h ++ data) datas); [|lia|].
    + simpl. by rewrite app_assoc.
    + intros j data' Hj.
      replace (S i + j)%nat with (i + S j)%nat by lia. by apply Hblobs.
Qed.

Lemma wholeHash_single s uploadId udoc p :
  uploadDoc.Parts udoc = [Some p] →
  wholeHash sha384hex s uploadId udoc = Ok (PartInfo.Hash p).
Proof. intros Hp. unfold wholeHash. by rewrite Hp. Qed.

Lemma wholeHash_many s uploadId udoc datas :
  length (uploadDoc.Parts udoc) ≠ 1%nat →
  length datas = length (uploadDoc.Parts udoc) →
  partBlobs s uploadId datas →
  wholeHash sha384hex s uploadId udoc = Ok (sha384hex (concat datas)).
Proof.
  intros Hn Hlen Hblobs. unfold wholeHash. case_decide; [done|].
  change 0 with (Z.of_nat 0).
  by rewrite (copyParts_read s uploadId _ 0%nat [] datas Hlen Hblobs).
Qed.

Lemma setUploadHash_done s uploadId udoc :
  uploadDoc.Hash udoc ≠ "" →
  setUploadHash sha384hex s uploadId udoc = (s, Ok (uploadDoc.Hash udoc)).
Proof. intros Hh. unfold setUploadHash. by case_decide. Qed.

Lemma setUploadHash_write s uploadId udoc hash d :
  uploadDoc.Hash udoc = "" →
  wholeHash sha384hex s uploadId udoc = Ok hash →
  mgo.fault (uploadc s) mgo.OpUpdate = None →
  mgo.docs (uploadc s) !! uploadId = Some d →
  setUploadHash sha384hex s uploadId udoc
    = (withUploadc s
         (mgo.withDocs (uploadc s) (<[uploadId := mgo.setHash hash d]> (mgo.docs (uploadc s)))),
       Ok hash).
Proof.
  intros Hh Hw Hf Hd. unfold setUploadHash. case_decide; [done|].
  rewrite Hw. unfold mgo.UpdateId.
  by rewrite (Update_found _ _ _ _ d Hf Hd eq_refl).
Qed.

Lemma setUploadHash_gone s uploadId udoc hash :
  uploadDoc.Hash udoc = "" →
  wholeHash sha384hex s uploadId udoc = Ok hash →
  mgo.fault (uploadc s) mgo.OpUpdate = None →
  mgo.docs (uploadc s) !! uploadId = None →
  setUploadHash sha384hex s uploadId udoc = (s, Fail ErrNotFound).
Proof.
  intros Hh Hw Hf Hd. unfold setUploadHash. case_decide; [done|].
  rewrite Hw. unfold mgo.UpdateId, mgo.Update. rewrite Hf, Hd. simpl.
  by rewrite withUploadc_same.
Qed.

(** What [FinishUpload] returns once the expected parts match: the
    hash [setUploadHash] returns and the sizes of the records. *)
Lemma FinishUpload_accepts s uploadId parts d s' hash :
  mgo.fault (uploadc s) mgo.OpFindOne = None →
  mgo.docs (uploadc s) !! uploadId = Some d →
  Forall2 partMatches parts (mgo.parts d) →
  checkPartSizes (mgo.parts d) (-1) 0 = None →
  setUploadHash sha384hex s uploadId (mgo.decode uploadId d) = (s', Ok hash) →
  FinishUpload sha384hex s uploadId parts
    = (s', Ok (MultipartIndex.mk (sizesOf (mgo.parts d)), hash)).
Proof.
  intros Hf Hd Hmatch Hsizes Hset. unfold FinishUpload.
  rewrite (getUpload_found _ _ d Hf Hd). simpl.
  pose proof (Forall2_length _ _ _ Hmatch) as Hlen.
  case_decide; [done|].
  destruct (checkParts_matches (mgo.parts d) parts Hlen) as [[_ ->]|[Hno _]]; [|done].
  rewrite Hsizes, Hset.
  rewrite (fillSizes_all (mgo.parts d) _ 0).
  - by rewrite take_0.
  - eapply Forall2_Forall_r; [exact Hmatch|].
    apply Forall_forall. intros p _ pu (q & -> & _). by eexists.
  - rewrite length_replicate. lia.
Qed.


(** A successful [FinishUpload] has found the document, matched the
    expected parts, and returns the sizes of the records. *)
Lemma FinishUpload_Ok s uploadId parts s' idx hash :
  FinishUpload sha384hex s uploadId parts = (s', Ok (idx, hash)) →
  ∃ d, mgo.docs (uploadc s) !! uploadId = Some d ∧
       Forall2 partMatches parts (mgo.parts d) ∧
       checkPartSizes (mgo.parts d) (-1) 0 = None ∧
       setUploadHash sha384hex s uploadId (mgo.decode uploadId d) = (s', Ok hash) ∧
       MultipartIndex.Sizes idx = sizesOf (mgo.parts d).
Proof.
  unfold FinishUpload.
  destruct (getUpload s uploadId) as [?|udoc] eqn:Hget; [done|].
  apply getUpload_inr in Hget as (Hf & d & Hd & ->). simpl.
  case_decide as Hlen; [done|].
  destruct (checkParts_matches (mgo.parts d) parts Hlen)
    as [[Hyes ->]|(_ & err & -> & _)]; [|done].
  destruct (checkPartSizes _ _ _) eqn:Hsizes; [done|].
  destruct (setUploadHash _ _ _ _) as [s1 [h| |]] eqn:Hset;
    [|by destruct (errgo.IsErrNotFound _)|done].
  destruct (fillSizes _ _ _) as [sizes| |] eqn:Hfill; [|done|done].
  intros [= <- <- <-]. exists d. split_and!; try done.
  rewrite (fillSizes_all (mgo.parts d) _ 0) in Hfill.
  - rewrite take_0 in Hfill. by injection Hfill as <-.
  - by eapply fillSizes_Ok.
  - rewrite length_replicate. lia.
Qed.

Lemma all_stored (uparts : list (option PartInfo.t)) :
  Forall is_Some uparts → ∃ stored, uparts = Some <$> stored.
Proof.
  induction 1 as [|pu rest [q ->] _ [stored ->]].
  - by exists [].
  - by exists (q :: stored).
Qed.

Lemma matched_all_stored parts (uparts : list (option PartInfo.t)) :
  Forall2 partMatches parts uparts → Forall is_Some uparts.
Proof.
  intros Hmatch. eapply Forall2_Forall_r; [exact Hmatch|].
  apply Forall_forall. intros p _ pu (q & -> & _). by eexists.
Qed.



(** C9. For a record not finalized yet whose expected parts match:
    with exactly one part of hash [h], [FinishUpload] returns [h] and
    sets it as the hash of the upload, whatever the backend holds (no
    blob is opened); with any other number of parts, it returns and
    sets the digest of the contents of the blobs of parts 0, 1, ...
    written one after the other to a single hash. *)
Theorem FinishUpload_whole_hash s uploadId parts d :
  mgo.fault (uploadc s) mgo.OpFindOne = None →
  mgo.fault (uploadc s) mgo.OpUpdate = None →
  mgo.docs (uploadc s) !! uploadId = Some d →
  mgo.hash d = None →
  Forall2 partMatches parts (mgo.parts d) →
  checkPartSizes (mgo.parts d) (-1) 0 = None →
  let finalized hash :=
    withUploadc s
      (mgo.withDocs (uploadc s)
         (<[uploadId := mgo.setHash hash d]> (mgo.docs (uploadc s)))) in
  (∀ p, mgo.parts d = [Some p] →
     FinishUpload sha384hex s uploadId parts
       = (finalized (PartInfo.Hash p),
          Ok (MultipartIndex.mk (sizesOf (mgo.parts d)), PartInfo.Hash p))) ∧
  (∀ datas, length (mgo.parts d) ≠ 1%nat →
     length datas = length (mgo.parts d) →
     partBlobs s uploadId datas →
     FinishUpload sha384hex s uploadId parts
       = (finalized (sha384hex (concat datas)),
          Ok (MultipartIndex.mk (sizesOf (mgo.parts d)), sha384hex (concat datas)))).
Proof.
  intros Hfind Hupd Hd Hnone Hmatch Hsizes finalized.
  assert (uploadDoc.Hash (mgo.decode uploadId d) = "") as Hfresh.
  { simpl. by rewrite Hnone. }
  split.
  - intros p Hp. apply (FinishUpload_accepts _ _ _ d); try done.
    apply setUploadHash_write; try done. by apply wholeHash_single.
  - intros datas Hmany Hlen Hblobs. apply (FinishUpload_accepts _ _ _ d); try done.
    apply setUploadHash_write; try done. by apply wholeHash_many.
Qed.

(** C10. In a store all of whose part records hold sizes that
    [PutPart] accepts (above 0 and below [maxPartSize]; [PutPart] records
    no others), the sizes in the index that [FinishUpload] returns are
    the recorded sizes themselves, in order: the conversion to [uint32]
    loses nothing. *)
Theorem FinishUpload_sizes_exact s uploadId parts d s' idx hash :
  sizesAccepted (uploadc s) →
  mgo.docs (uploadc s) !! uploadId = Some d →
  FinishUpload sha384hex s uploadId parts = (s', Ok (idx, hash)) →
  ∃ stored, mgo.parts d = Some <$> stored ∧
            MultipartIndex.Sizes idx = PartInfo.Size <$> stored.
Proof.
  intros Hbounds Hd Hfin.
  apply FinishUpload_Ok in Hfin as (d' & Hd' & Hmatch & _ & _ & ->).
  assert (d' = d) as -> by congruence.
  destruct (all_stored _ (matched_all_stored _ _ Hmatch)) as [stored Hst].
  exists stored. split; [done|]. rewrite Hst. apply sizesOf_exact.
  apply Forall_lookup. intros j q Hj. apply (Hbounds uploadId d j); [done|].
  by rewrite Hst, list_lookup_fmap, Hj.
Qed.

(** C2, as the code has it. Whatever hash the stored record holds at
    that moment, and so also when another caller has set one since the
    record was read, [setUploadHash] on a record read without a hash
    writes the hash it has computed over it: the update is selected by
    the id alone. The existing hash is returned, and nothing written,
    when the record read by [FinishUpload] already holds one. *)
Theorem setUploadHash_overwrites s uploadId parts d :
  mgo.fault (uploadc s) mgo.OpFindOne = None →
  mgo.fault (uploadc s) mgo.OpUpdate = None →
  mgo.docs (uploadc s) !! uploadId = Some d →
  Forall2 partMatches parts (mgo.parts d) →
  checkPartSizes (mgo.parts d) (-1) 0 = None →
  (∀ udoc hash,
     uploadDoc.Hash udoc = "" →
     wholeHash sha384hex s uploadId udoc = Ok hash →
     setUploadHash sha384hex s uploadId udoc
       = (withUploadc s
            (mgo.withDocs (uploadc s)
               (<[uploadId := mgo.setHash hash d]> (mgo.docs (uploadc s)))),
          Ok hash)) ∧
  (∀ existing, mgo.hash d = Some existing → existing ≠ "" →
     FinishUpload sha384hex s uploadId parts
       = (s, Ok (MultipartIndex.mk (sizesOf (mgo.parts d)), existing))).
Proof.
  intros Hfind Hupd Hd Hmatch Hsizes. split.
  - intros udoc hash Hfresh Hw. by apply setUploadHash_write.
  - intros existing Hex Hne. apply (FinishUpload_accepts _ _ _ d); try done.
    assert (uploadDoc.Hash (mgo.decode uploadId d) = existing) as <-.
    { simpl. by rewrite Hex. }
    apply setUploadHash_done. simpl. by rewrite Hex.
Qed.

End Finalizer.

(** ** The garbage collector *)

Lemma withDocs_same c : mgo.withDocs c (mgo.docs c) = c.
Proof. by destruct c. Qed.

Section Collector.

Context {B : Type} `{!Backend B}.
Implicit Types (s : Store B) (udoc : uploadDoc.t).

(** The loop of [removeUpload] removes the blob of every index, in
    order, going on after a failure; it logs the removals that failed
    other than by the blob not being there and returns the first of
    their errors. *)
Lemma removeBlobs_removeAll uploadId parts : ∀ s (i : nat) removeErr,
  removeBlobs s uploadId (Z.of_nat i) parts removeErr =
    (mkStore (uploadc s)
       (removeAll (backend s) (partNames uploadId i (length parts))).1
       (logged s ++ (removeAll (backend s) (partNames uploadId i (length parts))).2),
     match removeErr with
     | Some _ => removeErr
     | None => snd <$> head (removeAll (backend s) (partNames uploadId i (length parts))).2
     end).
Proof.
  induction parts as [|pu rest IH]; intros s i removeErr.
  - simpl. rewrite app_nil_r. by destruct s, removeErr.
  - cbn [removeBlobs length]. unfold partNames. cbn [seq fmap list_fmap removeAll].
    fold (partNames uploadId (S i) (length rest)).
    replace (Z.of_nat i + 1) with (Z.of_nat (S i)) by lia.
    destruct (Remove (backend s) (uploadPartName uploadId (Z.of_nat i)))
      as [b1 [err|]] eqn:Hrm.
    + destruct (errgo.IsErrNotFound (errgo.Cause err)) eqn:Hnf.
      * rewrite IH. simpl.
        by destruct (removeAll b1 (partNames uploadId (S i) (length rest))) as [b2 failed].
      * rewrite IH. simpl.
        destruct (removeAll b1 (partNames uploadId (S i) (length rest))) as [b2 failed].
        simpl. rewrite <- app_assoc. simpl.
        by destruct removeErr.
    + rewrite IH. simpl.
      by destruct (removeAll b1 (partNames uploadId (S i) (length rest))) as [b2 failed].
Qed.

(** The record read had no hash and the stored one has none: the
    conditional delete removes the document, then the blobs go. *)
Lemma removeUpload_unfinished s udoc d :
  uploadDoc.Hash udoc = "" →
  mgo.fault (uploadc s) mgo.OpRemove = None →
  mgo.docs (uploadc s) !! uploadDoc.Id udoc = Some d →
  mgo.hash d = None →
  let names := partNames (uploadDoc.Id udoc) 0 (length (uploadDoc.Parts udoc)) in
  removeUpload s udoc =
    (mkStore (mgo.withDocs (uploadc s) (delete (uploadDoc.Id udoc) (mgo.docs (uploadc s))))
       (removeAll (backend s) names).1
       (logged s ++ (removeAll (backend s) names).2),
     (λ failure, errgo.Notef failure.2 MsgFailedToRemoveSomeData)
       <$> head (removeAll (backend s) names).2).
Proof.
  intros Hfresh Hf Hd Hnone names. unfold removeUpload. case_decide; [|done].
  rewrite (Remove_found _ _ _ d Hf Hd) by (unfold mgo.hashNotExists; by rewrite Hnone).
  unfold removeUploadRest. simpl.
  change 0 with (Z.of_nat 0). rewrite removeBlobs_removeAll. simpl.
  fold names. by destruct (head (removeAll (backend s) names).2).
Qed.

(** The record read had no hash but the stored one has one by now:
    the conditional delete finds nothing, the document is then removed
    by its id, and no blob is touched. *)
Lemma removeUpload_lost_race s udoc d hash :
  uploadDoc.Hash udoc = "" →
  mgo.fault (uploadc s) mgo.OpRemove = None →
  mgo.docs (uploadc s) !! uploadDoc.Id udoc = Some d →
  mgo.hash d = Some hash →
  removeUpload s udoc =
    (withUploadc s
       (mgo.withDocs (uploadc s) (delete (uploadDoc.Id udoc) (mgo.docs (uploadc s)))),
     None).
Proof.
  intros Hfresh Hf Hd Hsome. unfold removeUpload. case_decide; [|done].
  rewrite (Remove_refused _ _ _ d Hf Hd) by (unfold mgo.hashNotExists; by rewrite Hsome).
  simpl. unfold removeUploadRest, mgo.RemoveId. simpl.
  by rewrite (Remove_found _ _ _ d Hf Hd eq_refl).
Qed.

(** The record read has a hash: the document is removed by its id, if
    it is still there, and no blob is touched. *)
Lemma removeUpload_finished s udoc :
  uploadDoc.Hash udoc ≠ "" →
  mgo.fault (uploadc s) mgo.OpRemove = None →
  removeUpload s udoc =
    (withUploadc s
       (mgo.withDocs (uploadc s) (delete (uploadDoc.Id udoc) (mgo.docs (uploadc s)))),
     None).
Proof.
  intros Hdone Hf. unfold removeUpload. case_decide; [done|].
  unfold removeUploadRest, mgo.RemoveId.
  destruct (mgo.docs (uploadc s) !! uploadDoc.Id udoc) as [d|] eqn:Hd.
  - by rewrite (Remove_found _ _ _ d Hf Hd eq_refl).
  - unfold mgo.Remove. rewrite Hf, Hd. simpl.
    by rewrite delete_id, withDocs_same.
Qed.

(** C5, as the code has it. When the conditional delete has removed
    the document of an upload that is not finished, the blob of every
    index of the record read is removed from the backend, in order and
    going on after a failure; a blob that is not there counts as
    removed; every other failure is logged, and the error returned is
    the first of them, wrapped, so that there is an error exactly when
    some blob could not be removed. When the record read is finished
    (it has a hash), only the document is removed: the backend and the
    log stay as they are. *)
Theorem removeUpload_blobs s udoc :
  mgo.fault (uploadc s) mgo.OpRemove = None →
  let names := partNames (uploadDoc.Id udoc) 0 (length (uploadDoc.Parts udoc)) in
  let deleted :=
    mgo.withDocs (uploadc s) (delete (uploadDoc.Id udoc) (mgo.docs (uploadc s))) in
  (∀ d, uploadDoc.Hash udoc = "" →
        mgo.docs (uploadc s) !! uploadDoc.Id udoc = Some d →
        mgo.hash d = None →
        removeUpload s udoc =
          (mkStore deleted (removeAll (backend s) names).1
             (logged s ++ (removeAll (backend s) names).2),
           (λ failure, errgo.Notef failure.2 MsgFailedToRemoveSomeData)
             <$> head (removeAll (backend s) names).2)) ∧
  (uploadDoc.Hash udoc ≠ "" →
   removeUpload s udoc = (mkStore deleted (backend s) (logged s), None)).
Proof.
  intros Hf names deleted. split.
  - intros d Hfresh Hd Hnone. by apply (removeUpload_unfinished s udoc d).
  - intros Hdone. by apply removeUpload_finished.
Qed.

(** C4, as the code has it. For a record read without a hash, the
    document is first removed by a delete that requires the hash to be
    absent still. When a hash has been set in the meantime, that delete
    finds nothing and no blob is removed: the backend and the log stay
    as they are; the document itself is then removed by its id. *)
Theorem removeUpload_finalized_meanwhile s udoc d :
  uploadDoc.Hash udoc = "" →
  mgo.fault (uploadc s) mgo.OpRemove = None →
  mgo.docs (uploadc s) !! uploadDoc.Id udoc = Some d →
  let deleted :=
    mgo.withDocs (uploadc s) (delete (uploadDoc.Id udoc) (mgo.docs (uploadc s))) in
  (mgo.hash d = None →
   mgo.Remove (uploadc s) (uploadDoc.Id udoc) mgo.hashNotExists = (deleted, None) ∧
   uploadc (removeUpload s udoc).1 = deleted) ∧
  (∀ hash, mgo.hash d = Some hash →
     mgo.Remove (uploadc s) (uploadDoc.Id udoc) mgo.hashNotExists
       = (uploadc s, Some MgoErrNotFound) ∧
     removeUpload s udoc = (mkStore deleted (backend s) (logged s), None)).
Proof.
  intros Hfresh Hf Hd deleted. split.
  - intros Hnone. split.
    + apply (Remove_found _ _ _ d); try done.
      unfold mgo.hashNotExists. by rewrite Hnone.
    + by rewrite (removeUpload_unfinished s udoc d).
  - intros hash Hsome. split.
    + apply (Remove_refused _ _ _ d); try done.
      unfold mgo.hashNotExists. by rewrite Hsome.
    + by apply (removeUpload_lost_race s udoc d hash).
Qed.

Lemma removeUploadRest_other s udoc removedDoc removeParts s' err id :
  removeUploadRest s udoc removedDoc removeParts = (s', err) →
  id ≠ uploadDoc.Id udoc →
  mgo.docs (uploadc s') !! id = mgo.docs (uploadc s) !! id.
Proof.
  unfold removeUploadRest. intros Hrest Hne.
  destruct removedDoc.
  - destruct removeParts; simpl in Hrest; [|by injection Hrest as <- _].
    change 0 with (Z.of_nat 0) in Hrest. rewrite removeBlobs_removeAll in Hrest.
    destruct (snd <$> head _) in Hrest; by injection Hrest as <- _.
  - unfold mgo.RemoveId in Hrest.
    destruct (mgo.Remove _ _ _) as [c rmErr] eqn:Hrm.
    pose proof (Remove_other _ _ _ _ _ id Hrm Hne) as Hsame.
    assert (∀ s0 e0, (s0, e0) = (s', err) → uploadc s0 = c →
                     mgo.docs (uploadc s') !! id = mgo.docs (uploadc s) !! id) as Hend.
    { intros s0 e0 [= <- _] ->. done. }
    destruct rmErr as [e|].
    + destruct (errgo.IsMgoErrNotFound e); [|by eapply Hend].
      destruct removeParts; simpl in Hrest; [|by eapply Hend].
      change 0 with (Z.of_nat 0) in Hrest. rewrite removeBlobs_removeAll in Hrest.
      destruct (snd <$> head _) in Hrest; by eapply Hend.
    + destruct removeParts; simpl in Hrest; [|by eapply Hend].
      change 0 with (Z.of_nat 0) in Hrest. rewrite removeBlobs_removeAll in Hrest.
      destruct (snd <$> head _) in Hrest; by eapply Hend.
Qed.

(** Removing an upload leaves the documents of the others alone. *)
Lemma removeUpload_other s udoc s' err id :
  removeUpload s udoc = (s', err) →
  id ≠ uploadDoc.Id udoc →
  mgo.docs (uploadc s') !! id = mgo.docs (uploadc s) !! id.
Proof.
  unfold removeUpload. intros Hrm Hne. case_decide.
  - destruct (mgo.Remove _ _ _) as [c rmErr] eqn:Hcond.
    pose proof (Remove_other _ _ _ _ _ id Hcond Hne) as Hsame.
    destruct rmErr as [e|].
    + destruct (errgo.IsMgoErrNotFound e).
      * rewrite (removeUploadRest_other _ _ _ _ _ _ id Hrm Hne). done.
      * by injection Hrm as <- _.
    + rewrite (removeUploadRest_other _ _ _ _ _ _ id Hrm Hne). done.
  - by apply (removeUploadRest_other _ _ _ _ _ _ id Hrm Hne).
Qed.

Lemma removeEach_other cursor : ∀ s s' err id,
  removeEach s cursor = (s', err) →
  id ∉ uploadDoc.Id <$> cursor →
  mgo.docs (uploadc s') !! id = mgo.docs (uploadc s) !! id.
Proof.
  induction cursor as [|udoc rest IH]; intros s s' err id Heach Hnot; simpl in *.
  - by injection Heach as <- _.
  - apply not_elem_of_cons in Hnot as [Hne Hnot].
    destruct (removeUpload s udoc) as [s1 [e|]] eqn:Hrm.
    + injection Heach as <- _. by apply (removeUpload_other _ _ _ _ _ Hrm).
    + rewrite (IH _ _ _ _ Heach Hnot). by apply (removeUpload_other _ _ _ _ _ Hrm).
Qed.

(** The loop of the sweep returns at the first removal that fails. *)
Lemma removeEach_stops before : ∀ s s1 udoc after s2 err,
  removeEach s before = (s1, None) →
  removeUpload s1 udoc = (s2, Some err) →
  removeEach s (before ++ udoc :: after) = (s2, Some (errgo.Mask err [])).
Proof.
  induction before as [|first rest IH]; intros s s1 udoc after s2 err Hbefore Hfail;
    simpl in *.
  - injection Hbefore as <-. by rewrite Hfail.
  - destruct (removeUpload s first) as [s0 [e|]]; [done|]. by eapply IH.
Qed.

End Collector.

(** ** The sweep of expired uploads *)

Lemma filter_sublist {A} (f : A → bool) (l : list A) : List.filter f l `sublist_of` l.
Proof.
  induction l as [|x l IH]; simpl; [constructor|].
  destruct (f x); by constructor.
Qed.

(** The documents a cursor delivers are stored documents that satisfy
    the selector, each delivered once. *)
Lemma Find_delivers c sel cursor itErr :
  mgo.Find c sel = (cursor, itErr) →
  NoDup (uploadDoc.Id <$> cursor) ∧
  ∀ udoc, udoc ∈ cursor →
    ∃ d, mgo.docs c !! uploadDoc.Id udoc = Some d ∧ sel d = true.
Proof.
  unfold mgo.Find.
  set (found := List.filter (λ kv, sel kv.2) (map_to_list (mgo.docs c))).
  assert (NoDup (uploadDoc.Id <$> ((λ kv, mgo.decode kv.1 kv.2) <$> found))) as Hnodup.
  { rewrite <- list_fmap_compose.
    eapply sublist_NoDup; [apply (NoDup_fst_map_to_list (mgo.docs c))|].
    apply fmap_sublist, filter_sublist. }
  assert (∀ udoc, udoc ∈ (λ kv, mgo.decode kv.1 kv.2) <$> found →
            ∃ d, mgo.docs c !! uploadDoc.Id udoc = Some d ∧ sel d = true) as Hin.
  { intros udoc ([id d] & -> & Hkv)%list_elem_of_fmap.
    apply list_elem_of_In, filter_In in Hkv as [Hkv Hsel].
    apply list_elem_of_In, elem_of_map_to_list in Hkv. simpl in *. eauto. }
  destruct (mgo.cursorFault c) as [[n err]|]; intros [= <- <-]; [|done].
  split.
  - eapply sublist_NoDup; [exact Hnodup|]. apply fmap_sublist, sublist_take.
  - intros udoc Hudoc. apply Hin. eapply elem_of_sublist; [exact Hudoc|].
    apply sublist_take.
Qed.

Section Sweep.

Context {B : Type} `{!Backend B}.
Implicit Types (s : Store B) (udoc : uploadDoc.t).

(** C3, as the code has it. In a sweep of the expired uploads, the
    removal of one record that fails ends the sweep: its error is
    returned at once, and the expired records that the scan delivers
    after it are still stored. When every removal succeeds, an error of
    the scan itself is returned. *)
Theorem RemoveExpiredUploads_stops_at_failure s now cursor itErr :
  mgo.Find (uploadc s) (mgo.expiresBefore now) = (cursor, itErr) →
  (∀ before udoc after s1 s2 err,
     cursor = before ++ udoc :: after →
     removeEach s before = (s1, None) →
     removeUpload s1 udoc = (s2, Some err) →
     RemoveExpiredUploads s now = (s2, Some (errgo.Mask err [])) ∧
     ∀ later, later ∈ after →
       ∃ d, mgo.docs (uploadc s2) !! uploadDoc.Id later = Some d ∧
            mgo.expires d < now) ∧
  (∀ s1, removeEach s cursor = (s1, None) →
         RemoveExpiredUploads s now = (s1, (λ err, errgo.Mask err []) <$> itErr)).
Proof.
  intros Hfind. split.
  - intros before udoc after s1 s2 err -> Hbefore Hfail. split.
    + unfold RemoveExpiredUploads. rewrite Hfind.
      by rewrite (removeEach_stops _ _ _ _ after _ _ Hbefore Hfail).
    + intros later Hlater.
      apply Find_delivers in Hfind as [Hnodup Hstored].
      destruct (Hstored later) as (d & Hd & Hexp).
      { apply elem_of_app. right. by apply elem_of_cons; right. }
      exists d. split.
      * rewrite fmap_app, fmap_cons in Hnodup.
        apply NoDup_app in Hnodup as (_ & Hapart & Hrest).
        apply NoDup_cons in Hrest as [Hfresh _].
        rewrite (removeUpload_other _ _ _ _ _ Hfail).
        -- rewrite (removeEach_other _ _ _ _ _ Hbefore); [done|].
           intros Hin. apply (Hapart _ Hin).
           apply elem_of_cons; right. by apply list_elem_of_fmap_2.
        -- intros Heq. apply Hfresh. rewrite <- Heq. by apply list_elem_of_fmap_2.
      * unfold mgo.expiresBefore in Hexp. by apply bool_decide_eq_true in Hexp.
  - intros s1 Hall. unfold RemoveExpiredUploads. rewrite Hfind, Hall.
    by destruct itErr.
Qed.

End Sweep.

(** ** The operations on the sample stores *)

Lemma sampleOnePart_doc : mgo.docs (uploadc sampleOnePart) !! "u1" = Some docOnePart.
Proof. vm_compute. reflexivity. Qed.

Lemma sampleTwoParts_doc : mgo.docs (uploadc sampleTwoParts) !! "u1" = Some docTwoParts.
Proof. vm_compute. reflexivity. Qed.

Lemma sampleFinished_doc : mgo.docs (uploadc sampleFinished) !! "u1" = Some docFinished.
Proof. vm_compute. reflexivity. Qed.

Lemma expectedTwo_matches : Forall2 partMatches expectedTwo (mgo.parts docTwoParts).
Proof. repeat (constructor; [by eexists|]). constructor. Qed.

Lemma sampleTwoParts_blobs : partBlobs sampleTwoParts "u1" dataTwo.
Proof.
  intros [|[|j]] data Hj; simpl in Hj; [| |done];
    injection Hj as <-; eexists; vm_compute; reflexivity.
Qed.

(** C6, on the upload of the end-to-end example: a first part of 5 MiB
    and a last part of 1024 bytes, both complete and expected.
    [FinishUpload] turns the upload down because of the size of its
    last part. *)
Theorem FinishUpload_rejects_small_last_part :
  FinishUpload plainHex sampleSmallLast "u1" expectedTwo
    = (sampleSmallLast,
       Fail (errgo.Mask (errgo.Newf (MsgPartWasTooSmall 1 minPartSize 1024)) [])).
Proof. vm_compute. reflexivity. Qed.


Lemma FinishUpload_whole_hash_witness :
  FinishUpload plainHex sampleTwoParts "u1" expectedTwo
    = (sampleFinished,
       Ok (MultipartIndex.mk [5242880; 5242880], plainHex (concat dataTwo))).
Proof.
  pose proof (FinishUpload_whole_hash plainHex sampleTwoParts "u1" expectedTwo docTwoParts
                eq_refl eq_refl sampleTwoParts_doc eq_refl expectedTwo_matches eq_refl)
    as [_ Hmany].
  rewrite (Hmany dataTwo); [|by vm_compute|reflexivity|exact sampleTwoParts_blobs].
  vm_compute. reflexivity.
Defined.

Lemma sampleTwoParts_sizesAccepted : sizesAccepted (uploadc sampleTwoParts).
Proof.
  unfold sampleTwoParts, sampleOnePart.
  eapply PutPart_sizesAccepted; [apply surjective_pairing|].
  eapply PutPart_sizesAccepted; [apply surjective_pairing|].
  apply NewUpload_sizesAccepted.
  intros id d j q Hd. simpl in Hd. by rewrite lookup_empty in Hd.
Qed.

Lemma FinishUpload_sizes_exact_witness :
  ∃ stored, mgo.parts docTwoParts = Some <$> stored ∧
            [5242880; 5242880] = PartInfo.Size <$> stored.
Proof.
  apply (FinishUpload_sizes_exact plainHex sampleTwoParts "u1" expectedTwo docTwoParts
           sampleFinished (MultipartIndex.mk [5242880; 5242880]) "aaabb").
  - exact sampleTwoParts_sizesAccepted.
  - exact sampleTwoParts_doc.
  - vm_compute. reflexivity.
Defined.

Lemma PutPart_idempotent_witness :
  PutPart (NewUpload emptyStore "u1" 100).1 "u1" 0 (bytes "aaa") 5242880 "h0"
    = (sampleOnePart, None) ∧
  PutPart sampleOnePart "u1" 0 (bytes "zzz") 5242880 "h0" = (sampleOnePart, None).
Proof.
  assert (PutPart (NewUpload emptyStore "u1" 100).1 "u1" 0 (bytes "aaa") 5242880 "h0"
          = (sampleOnePart, None)) as Hfirst by (vm_compute; reflexivity).
  split; [exact Hfirst|].
  exact (PutPart_idempotent _ _ _ _ _ _ _ Hfirst (bytes "zzz")).
Defined.

Lemma PutPart_hash_conflict_witness :
  PutPart sampleOnePart "u1" 0 (bytes "zzz") 5242880 "other"
    = (sampleOnePart, Some (errgo.Newf MsgHashMismatchUploaded)).
Proof.
  apply (PutPart_hash_conflict sampleOnePart "u1" 0 (bytes "zzz") 5242880 "other"
           docOnePart part0).
  - exact sampleOnePart_doc.
  - lia.
  - reflexivity.
  - by vm_compute.
  - reflexivity.
  - by vm_compute.
  - by vm_compute.
  - vm_compute. reflexivity.
Defined.

(** Against C2 as stated. Upload [u1] has been finalized by another
    caller, with hash [aaabb], after this caller read its record, then
    of one part and without a hash. [setUploadHash] writes its own hash
    over the stored one and returns it, not the existing hash. *)
Lemma setUploadHash_writes_over_a_hash :
  mgo.hash <$> mgo.docs (uploadc sampleFinished) !! "u1" = Some (Some "aaabb") ∧
  uploadDoc.Hash readOnePart = "" ∧
  ∃ s', setUploadHash plainHex sampleFinished "u1" readOnePart = (s', Ok "h0") ∧
        mgo.hash <$> mgo.docs (uploadc s') !! "u1" = Some (Some "h0").
Proof.
  split; [by vm_compute|]. split; [reflexivity|].
  eexists. split; vm_compute; reflexivity.
Qed.

Lemma setUploadHash_overwrites_witness :
  setUploadHash plainHex sampleFinished "u1" readOnePart
    = (withUploadc sampleFinished
         (mgo.withDocs (uploadc sampleFinished)
            (<["u1" := mgo.setHash "h0" docFinished]>
               (mgo.docs (uploadc sampleFinished)))),
       Ok "h0") ∧
  FinishUpload plainHex sampleFinished "u1" expectedTwo
    = (sampleFinished, Ok (MultipartIndex.mk (sizesOf (mgo.parts docFinished)), "aaabb")).
Proof.
  pose proof (setUploadHash_overwrites plainHex sampleFinished "u1" expectedTwo docFinished
                eq_refl eq_refl sampleFinished_doc expectedTwo_matches eq_refl)
    as [Hwrite Hexisting].
  split.
  - apply Hwrite; reflexivity.
  - apply Hexisting; [reflexivity|by vm_compute].
Defined.

(** Against C3 as stated. Two uploads have expired and the scan delivers
    both without error; the removal of the first fails on its blob. The
    sweep returns that error, and the second upload is still stored, with
    its blob. *)
Lemma sweep_aborted_by_a_failed_removal :
  mgo.Find (uploadc sampleTwoUploads) (mgo.expiresBefore 200)
    = ([mgo.decode "u1" docOnePart;
        mgo.decode "u2" (mgo.mkDocument None 100 [Some (PartInfo.mk "k0" 5242880 true)])],
       None) ∧
  ∃ s', RemoveExpiredUploads sampleTwoUploads 200
          = (s', Some (errgo.Mask
                         (errgo.Notef (Foreign "remove failed") MsgFailedToRemoveSomeData)
                         [])) ∧
        mgo.docs (uploadc s') !! "u2"
          = Some (mgo.mkDocument None 100 [Some (PartInfo.mk "k0" 5242880 true)]) ∧
        blobs (backend s') !! "u2/0" = Some (rdData (bytes "bb")).
Proof.
  split; [vm_compute; reflexivity|].
  eexists. split_and!; vm_compute; reflexivity.
Qed.

Lemma RemoveExpiredUploads_stops_at_failure_witness :
  ∃ s2,
    RemoveExpiredUploads sampleTwoUploads 200
      = (s2, Some (errgo.Mask
                     (errgo.Notef (Foreign "remove failed") MsgFailedToRemoveSomeData) [])) ∧
    ∀ later,
      later ∈ [mgo.decode "u2"
                 (mgo.mkDocument None 100 [Some (PartInfo.mk "k0" 5242880 true)])] →
      ∃ d, mgo.docs (uploadc s2) !! uploadDoc.Id later = Some d ∧ mgo.expires d < 200.
Proof.
  exists (removeUpload sampleTwoUploads (mgo.decode "u1" docOnePart)).1.
  pose proof (RemoveExpiredUploads_stops_at_failure sampleTwoUploads 200
                [mgo.decode "u1" docOnePart;
                 mgo.decode "u2"
                   (mgo.mkDocument None 100 [Some (PartInfo.mk "k0" 5242880 true)])]
                None ltac:(vm_compute; reflexivity)) as [Hstop _].
  apply (Hstop [] (mgo.decode "u1" docOnePart) _ sampleTwoUploads).
  - reflexivity.
  - reflexivity.
  - vm_compute. reflexivity.
Defined.

(** Against C4 as stated. The record of [u1] was read before the upload
    was finalized; at the time of the removal the stored document holds
    a hash. [removeUpload] removes the document all the same (by its
    id); the blobs stay. *)
Lemma removeUpload_deletes_finalized_document :
  uploadDoc.Hash readTwoParts = "" ∧
  mgo.hash <$> mgo.docs (uploadc sampleFinished) !! "u1" = Some (Some "aaabb") ∧
  ∃ s', removeUpload sampleFinished readTwoParts = (s', None) ∧
        mgo.docs (uploadc s') !! "u1" = None ∧
        backend s' = backend sampleFinished.
Proof.
  split; [reflexivity|]. split; [by vm_compute|].
  eexists. split_and!; vm_compute; reflexivity.
Qed.

Lemma removeUpload_finalized_meanwhile_witness :
  mgo.Remove (uploadc sampleFinished) "u1" mgo.hashNotExists
    = (uploadc sampleFinished, Some MgoErrNotFound) ∧
  removeUpload sampleFinished readTwoParts
    = (mkStore
         (mgo.withDocs (uploadc sampleFinished)
            (delete "u1" (mgo.docs (uploadc sampleFinished))))
         (backend sampleFinished) (logged sampleFinished),
       None).
Proof.
  pose proof (removeUpload_finalized_meanwhile sampleFinished readTwoParts docFinished
                eq_refl eq_refl sampleFinished_doc) as [_ Hrace].
  exact (Hrace "aaabb" eq_refl).
Defined.

(** Against C5 as stated. The record of [u1] is finished (it has a
    hash); [removeUpload] removes its document and leaves the blobs of
    both parts in the backend. *)
Lemma removeUpload_keeps_blobs_of_finished :
  uploadDoc.Hash readFinished = "aaabb" ∧
  ∃ s', removeUpload sampleFinished readFinished = (s', None) ∧
        mgo.docs (uploadc s') !! "u1" = None ∧
        blobs (backend s') !! "u1/0" = Some (rdData (bytes "aaa")) ∧
        blobs (backend s') !! "u1/1" = Some (rdData (bytes "bb")).
Proof.
  split; [reflexivity|].
  eexists. split_and!; vm_compute; reflexivity.
Qed.

Lemma removeUpload_blobs_witness :
  removeUpload sampleTwoParts readTwoParts
    = (mkStore
         (mgo.withDocs (uploadc sampleTwoParts)
            (delete "u1" (mgo.docs (uploadc sampleTwoParts))))
         (removeAll (backend sampleTwoParts) ["u1/0"; "u1/1"]).1
         (logged sampleTwoParts ++ (removeAll (backend sampleTwoParts) ["u1/0"; "u1/1"]).2),
       None) ∧
  blobs (backend (removeUpload sampleTwoParts readTwoParts).1) = ∅.
Proof.
  pose proof (removeUpload_blobs sampleTwoParts readTwoParts eq_refl) as [Hgone _].
  split.
  - rewrite (Hgone docTwoParts eq_refl sampleTwoParts_doc eq_refl).
    vm_compute. reflexivity.
  - vm_compute. reflexivity.
Defined.

(** * Further properties of the operations *)

(** ** What a [PutPart] does to the collection *)

Lemma setElem_setElem {A} (l : list (option A)) n x y :
  mgo.setElem (mgo.setElem l n x) n y = mgo.setElem l n y.
Proof.
  destruct (decide (n < length l)%nat) as [Hlt|Hge].
  - unfold mgo.setElem. rewrite !(decide_True _ _ Hlt).
    rewrite decide_True by (by rewrite length_insert).
    apply list_insert_insert_eq.
  - unfold mgo.setElem. rewrite !(decide_False _ _ Hge).
    rewrite decide_True by (rewrite !length_app, length_replicate; simpl; lia).
    rewrite insert_app_r_alt by lia.
    rewrite insert_app_r_alt by (rewrite length_replicate; lia).
    by replace (n - length l - length (replicate (n - length l) (@None A)))%nat
      with 0%nat by (rewrite length_replicate; lia).
Qed.

(** An update of one element keeps the records of the others. *)
Lemma setElem_lookup_other {A} (l : list (option A)) n x j y :
  j ≠ n → l !! j = Some (Some y) → mgo.setElem l n x !! j = Some (Some y).
Proof.
  intros Hne Hj. pose proof (lookup_lt_Some _ _ _ Hj) as Hlt.
  unfold mgo.setElem. case_decide.
  - by rewrite list_lookup_insert_ne.
  - by rewrite lookup_app_l.
Qed.

Lemma Remove_unchanged_on_error c id sel c' err :
  mgo.Remove c id sel = (c', Some err) → c' = c.
Proof.
  unfold mgo.Remove. destruct (mgo.fault c mgo.OpRemove); [by intros [= <- _]|].
  destruct (mgo.docs c !! id) as [d|]; [|by intros [= <- _]].
  destruct (sel d); [done|by intros [= <- _]].
Qed.

Lemma Remove_gone c id sel c' :
  mgo.Remove c id sel = (c', None) → mgo.docs c' !! id = None.
Proof.
  unfold mgo.Remove. destruct (mgo.fault c mgo.OpRemove); [done|].
  destruct (mgo.docs c !! id) as [d|]; [|done].
  destruct (sel d); [|done]. intros [= <-]. simpl. apply lookup_delete_eq.
Qed.

Lemma Remove_fault_kept c id sel c' err :
  mgo.Remove c id sel = (c', err) → mgo.fault c' = mgo.fault c.
Proof.
  unfold mgo.Remove. destruct (mgo.fault c mgo.OpRemove); [by intros [= <- _]|].
  destruct (mgo.docs c !! id) as [d|]; [|by intros [= <- _]].
  destruct (sel d); by intros [= <- _].
Qed.

Section TrackerEffects.

Context {B : Type} `{!Backend B}.
Implicit Types (s : Store B) (r : Reader).

Lemma storedPart_mjoin udoc part :
  0 ≤ part → storedPart udoc part = mjoin (uploadDoc.Parts udoc !! Z.to_nat part).
Proof.
  intros Hpos. unfold storedPart. case_decide as Hlt; [done|].
  rewrite lookup_ge_None_2 by lia. done.
Qed.

Lemma initializePart_effect s uploadId part hash size s1 err :
  initializePart s uploadId part hash size = (s1, err) →
  (s1 = s ∧ err ≠ None) ∨
  (err = None ∧
   ∃ d, mgo.docs (uploadc s) !! uploadId = Some d ∧
        mgo.hash d = None ∧
        mjoin (mgo.parts d !! Z.to_nat part) = None ∧
        s1 = withUploadc s
               (mgo.withDocs (uploadc s)
                  (<[uploadId := mgo.setPart (Z.to_nat part) (PartInfo.mk hash size false) d]>
                     (mgo.docs (uploadc s))))).
Proof.
  unfold initializePart.
  destruct (mgo.Update _ _ _ _) as [c [e|]] eqn:Hup.
  - assert (c = uploadc s) as ->.
    { revert Hup. unfold mgo.Update.
      destruct (mgo.fault _ _); [by intros [= <- _]|].
      destruct (mgo.docs _ !! _) as [d|]; [|by intros [= <- _]].
      destruct (_ && _); [done|by intros [= <- _]]. }
    rewrite withUploadc_same.
    destruct (errgo.IsMgoErrNotFound e); intros [= <- <-]; by left.
  - intros [= <- <-]. right. split; [done|].
    apply Update_ok in Hup as (_ & d & Hd & Hsel & ->).
    apply andb_prop in Hsel as [Hhash Hpart].
    exists d. split_and!; try done.
    + unfold mgo.hashNotExists in Hhash. by destruct (mgo.hash d).
    + unfold mgo.partNotExistsOrNull in Hpart.
      by destruct (mgo.parts d !! Z.to_nat part) as [[?|]|].
Qed.

Lemma putAndMarkComplete_effect s uploadId part r size hash s1 err :
  putAndMarkComplete s uploadId part r size hash = (s1, err) →
  (uploadc s1 = uploadc s ∧ err ≠ None) ∨
  (err = None ∧
   ∃ d, mgo.docs (uploadc s) !! uploadId = Some d ∧
        uploadc s1 =
          mgo.withDocs (uploadc s)
            (<[uploadId := mgo.setPart (Z.to_nat part) (PartInfo.mk hash size true) d]>
               (mgo.docs (uploadc s)))).
Proof.
  unfold putAndMarkComplete.
  destruct (Put _ _ _ _ _) as [b [e0|]]; [intros [= <- <-]; by left|].
  destruct (mgo.UpdateId _ _ _) as [c e1] eqn:Hup. simpl in Hup.
  destruct e1 as [e1|].
  - intros [= <- <-]. left. split; [|done]. simpl.
    revert Hup. unfold mgo.UpdateId, mgo.Update.
    destruct (mgo.fault _ _); [by intros [= <- _]|].
    by destruct (mgo.docs _ !! _) as [d|]; intros [= <- _].
  - intros [= <- <-]. right. split; [done|].
    apply Update_ok in Hup as (_ & d & Hd & _ & ->). eauto.
Qed.

(** Every [PutPart] either leaves the documents as they are, or writes
    one part record, of the given hash and size, at the given index of
    the given upload. It writes only after the checks of the arguments
    and of the sizes have passed, and only over no record (in an upload
    without hash) or over an incomplete record of the same hash. *)
Lemma PutPart_effect s uploadId part r size hash s' err :
  PutPart s uploadId part r size hash = (s', err) →
  (mgo.docs (uploadc s') = mgo.docs (uploadc s) ∧
   (err = None →
    ∃ d p, mgo.docs (uploadc s) !! uploadId = Some d ∧
           mgo.parts d !! Z.to_nat part = Some (Some p) ∧
           PartInfo.Hash p = hash ∧ PartInfo.Complete p = true)) ∨
  (∃ d complete,
     0 ≤ part ∧ 0 < size < maxPartSize ∧
     mgo.docs (uploadc s) !! uploadId = Some d ∧
     checkPartSizes (mgo.parts d) part size = None ∧
     match mjoin (mgo.parts d !! Z.to_nat part) with
     | Some p => PartInfo.Hash p = hash ∧ PartInfo.Complete p = false
     | None => mgo.hash d = None
     end ∧
     (err = None → complete = true) ∧
     mgo.docs (uploadc s') =
       <[uploadId := mgo.setPart (Z.to_nat part) (PartInfo.mk hash size complete) d]>
         (mgo.docs (uploadc s))).
Proof.
  intros Hput. unfold PutPart in Hput.
  repeat (case_decide; [injection Hput as <- <-; by left|]).
  destruct (getUpload s uploadId) as [?|udoc] eqn:Hget;
    [injection Hput as <- <-; by left|].
  apply getUpload_inr in Hget as (Hf & d & Hd & ->).
  destruct (checkPartSizes _ _ _) eqn:Hcheck; [injection Hput as <- <-; by left|].
  simpl in Hcheck.
  rewrite storedPart_mjoin in Hput by lia. simpl in Hput.
  destruct (mjoin (mgo.parts d !! Z.to_nat part)) as [p|] eqn:Hstored.
  - assert (mgo.parts d !! Z.to_nat part = Some (Some p)) as Hp.
    { by destruct (mgo.parts d !! Z.to_nat part) as [[?|]|]; simplify_eq/=. }
    case_decide as Hhash; [injection Hput as <- <-; by left|].
    destruct (PartInfo.Complete p) eqn:Hcomplete.
    + injection Hput as <- <-. left. split; [done|]. intros _. by exists d, p.
    + apply putAndMarkComplete_effect in Hput as [[Hsame Herr]|(-> & d0 & Hd0 & Hc)].
      * left. split; [by rewrite Hsame|done].
      * right. exists d, true. assert (d0 = d) as -> by congruence.
        rewrite Hstored. split_and!; try done; try lia. by rewrite Hc.
  - case_decide as Hfin; [injection Hput as <- <-; by left|].
    destruct (initializePart s uploadId part hash size) as [s1 e1] eqn:Hinit.
    apply initializePart_effect in Hinit as [[-> Herr]|(-> & d0 & Hd0 & Hnone & _ & ->)].
    + destruct e1; [|done]. injection Hput as <- <-. by left.
    + assert (d0 = d) as -> by congruence.
      apply putAndMarkComplete_effect in Hput as [[Hsame Herr]|(-> & d1 & Hd1 & Hc)].
      * right. exists d, false. rewrite Hstored.
        split_and!; try done; try lia. by rewrite Hsame.
      * right. exists d, true. rewrite Hstored.
        simpl in Hd1. rewrite lookup_insert_eq in Hd1. injection Hd1 as <-.
        split_and!; try done; try lia.
        rewrite Hc. simpl. rewrite insert_insert_eq.
        unfold mgo.setPart. simpl. by rewrite setElem_setElem.
Qed.

Lemma Update_fault_kept c id sel update c' err :
  mgo.Update c id sel update = (c', err) → mgo.fault c' = mgo.fault c.
Proof. by intros [->|(d & _ & ->)]%Update_cases. Qed.

Lemma PutPart_fault_kept s uploadId part r size hash s' err :
  PutPart s uploadId part r size hash = (s', err) →
  mgo.fault (uploadc s') = mgo.fault (uploadc s).
Proof.
  intros Hput. unfold PutPart in Hput.
  repeat (case_decide; [by injection Hput as <- _|]).
  assert (∀ s0 s1 e, putAndMarkComplete s0 uploadId part r size hash = (s1, e) →
            mgo.fault (uploadc s1) = mgo.fault (uploadc s0)) as Hmark.
  { intros s0 s1 e. unfold putAndMarkComplete.
    destruct (Put _ _ _ _ _) as [b [e0|]]; [by intros [= <- _]|].
    destruct (mgo.UpdateId _ _ _) as [c e1] eqn:Hup.
    apply Update_fault_kept in Hup. by destruct e1; intros [= <- _]. }
  destruct (getUpload s uploadId) as [?|udoc]; [by injection Hput as <- _|].
  destruct (checkPartSizes _ _ _); [by injection Hput as <- _|].
  destruct (storedPart udoc part) as [p|].
  - case_decide; [by injection Hput as <- _|].
    destruct (PartInfo.Complete p); [by injection Hput as <- _|].
    by apply (Hmark s s' err).
  - case_decide; [by injection Hput as <- _|].
    destruct (initializePart s uploadId part hash size) as [s1 e1] eqn:Hinit.
    assert (mgo.fault (uploadc s1) = mgo.fault (uploadc s)) as Hkept.
    { by apply initializePart_effect in Hinit as [[-> _]|(_ & d & _ & _ & _ & ->)]. }
    destruct e1; [by injection Hput as <- _|].
    rewrite <- Hkept. by apply (Hmark s1 s' err).
Qed.

(** A [PutPart] that succeeds has found the upload. *)
Lemma PutPart_ok_found s uploadId part r size hash s' :
  PutPart s uploadId part r size hash = (s', None) →
  mgo.fault (uploadc s) mgo.OpFindOne = None.
Proof.
  intros Hput. unfold PutPart in Hput.
  repeat (case_decide; [done|]).
  destruct (getUpload s uploadId) as [?|udoc] eqn:Hget; [done|].
  by apply getUpload_inr in Hget as (Hf & _).
Qed.

(** The only thing a [PutPart] does to the backend is at most one [Put],
    of the blob named after the upload and the part; it logs nothing. *)
Lemma PutPart_backend s uploadId part r size hash s' err :
  PutPart s uploadId part r size hash = (s', err) →
  logged s' = logged s ∧
  (backend s' = backend s ∨
   backend s' = (Put (backend s) r (uploadPartName uploadId part) size hash).1).
Proof.
  intros Hput. unfold PutPart in Hput.
  repeat (case_decide; [injection Hput as <- _; by auto|]).
  assert (∀ s0 s1 e, putAndMarkComplete s0 uploadId part r size hash = (s1, e) →
            logged s1 = logged s0 ∧
            backend s1 = (Put (backend s0) r (uploadPartName uploadId part) size hash).1)
    as Hmark.
  { intros s0 s1 e. unfold putAndMarkComplete.
    destruct (Put _ _ _ _ _) as [b [e0|]]; [by intros [= <- _]|].
    destruct (mgo.UpdateId _ _ _) as [c e1]. by destruct e1; intros [= <- _]. }
  destruct (getUpload s uploadId) as [?|udoc]; [injection Hput as <- _; by auto|].
  destruct (checkPartSizes _ _ _); [injection Hput as <- _; by auto|].
  destruct (storedPart udoc part) as [p|].
  - case_decide; [injection Hput as <- _; by auto|].
    destruct (PartInfo.Complete p); [injection Hput as <- _; by auto|].
    destruct (Hmark s s' err Hput) as [-> ->]. auto.
  - case_decide; [injection Hput as <- _; by auto|].
    destruct (initializePart s uploadId part hash size) as [s1 e1] eqn:Hinit.
    assert (logged s1 = logged s ∧ backend s1 = backend s) as [Hlog Hback].
    { by apply initializePart_effect in Hinit as [[-> _]|(_ & d & _ & _ & _ & ->)]. }
    destruct e1; [injection Hput as <- _; by auto|].
    destruct (Hmark s1 s' err Hput) as [-> ->]. rewrite Hlog, Hback. auto.
Qed.

(** X4. After a [PutPart] that succeeds, [UploadInfo] shows the part as
    complete, with the hash that was given. *)
Theorem PutPart_completes_part s uploadId part r size hash s' :
  PutPart s uploadId part r size hash = (s', None) →
  ∃ info p,
    UploadInfo s' uploadId = Ok info ∧
    UploadInfo.Parts info !! Z.to_nat part = Some (Some p) ∧
    PartInfo.Hash p = hash ∧ PartInfo.Complete p = true.
Proof.
  intros Hput.
  pose proof (PutPart_ok_found _ _ _ _ _ _ _ Hput) as Hfound.
  pose proof (PutPart_fault_kept _ _ _ _ _ _ _ _ Hput) as Hkept.
  assert (∃ d' p, mgo.docs (uploadc s') !! uploadId = Some d' ∧
                  mgo.parts d' !! Z.to_nat part = Some (Some p) ∧
                  PartInfo.Hash p = hash ∧ PartInfo.Complete p = true)
    as (d' & p & Hd' & Hp & Hhash & Hcomplete).
  { apply PutPart_effect in Hput
      as [[Hsame Hthere]|(d & complete & _ & _ & Hd & _ & _ & Hdone & Hdocs)].
    - destruct (Hthere eq_refl) as (d & p & Hd & Hp & Hh & Hc).
      exists d, p. by rewrite Hsame.
    - rewrite (Hdone eq_refl) in Hdocs. eexists _, _. split_and!.
      + rewrite Hdocs. apply lookup_insert_eq.
      + simpl. apply setElem_lookup_eq.
      + done.
      + done. }
  unfold UploadInfo. rewrite (getUpload_found _ _ d'); [|by rewrite Hkept|done].
  eexists _, p. by split_and!.
Qed.

(** X5. A [PutPart], whatever it returns, leaves the other uploads as they
    are, creates and removes no upload, keeps the hash and the expiry of
    the upload and the records of its other parts, logs nothing, and
    does at most one [Put] in the backend, of the blob named after the
    upload and the part. *)
Theorem PutPart_frame s uploadId part r size hash s' err :
  PutPart s uploadId part r size hash = (s', err) →
  (∀ id, id ≠ uploadId →
         mgo.docs (uploadc s') !! id = mgo.docs (uploadc s) !! id) ∧
  (mgo.docs (uploadc s) !! uploadId = None →
   mgo.docs (uploadc s') !! uploadId = None) ∧
  (∀ d, mgo.docs (uploadc s) !! uploadId = Some d →
        ∃ d', mgo.docs (uploadc s') !! uploadId = Some d' ∧
              mgo.hash d' = mgo.hash d ∧ mgo.expires d' = mgo.expires d ∧
              ∀ (j : nat) q, j ≠ Z.to_nat part →
                mgo.parts d !! j = Some (Some q) →
                mgo.parts d' !! j = Some (Some q)) ∧
  logged s' = logged s ∧
  (backend s' = backend s ∨
   backend s' = (Put (backend s) r (uploadPartName uploadId part) size hash).1).
Proof.
  intros Hput.
  destruct (PutPart_backend _ _ _ _ _ _ _ _ Hput) as [Hlog Hback].
  apply PutPart_effect in Hput
    as [[Hsame _]|(d & complete & _ & _ & Hd & _ & _ & _ & Hdocs)].
  - rewrite Hsame. split_and!; try done. intros d Hd. by exists d.
  - rewrite Hdocs. split_and!; try done.
    + intros id Hne. by rewrite lookup_insert_ne.
    + congruence.
    + intros d0 Hd0. assert (d0 = d) as -> by congruence.
      eexists. split; [apply lookup_insert_eq|]. split_and!; try done.
      intros j q Hne Hj. simpl. by apply setElem_lookup_other.
Qed.

(** X6. The hash of a part record never changes, and a complete record
    never changes at all: after any [PutPart], every record that was
    there is there still, with its hash, and as it was if it was
    complete. *)
Theorem PutPart_keeps_records s uploadId part r size hash s' err id d (j : nat) p :
  PutPart s uploadId part r size hash = (s', err) →
  mgo.docs (uploadc s) !! id = Some d →
  mgo.parts d !! j = Some (Some p) →
  ∃ d' p', mgo.docs (uploadc s') !! id = Some d' ∧
           mgo.parts d' !! j = Some (Some p') ∧
           PartInfo.Hash p' = PartInfo.Hash p ∧
           (PartInfo.Complete p = true → p' = p).
Proof.
  intros Hput Hd Hp.
  apply PutPart_effect in Hput
    as [[Hsame _]|(d0 & complete & _ & _ & Hd0 & _ & Hstored & _ & Hdocs)].
  - exists d, p. by rewrite Hsame.
  - rewrite Hdocs. destruct (decide (id = uploadId)) as [->|Hne].
    + assert (d0 = d) as -> by congruence.
      eexists. rewrite lookup_insert_eq. simpl.
      destruct (decide (j = Z.to_nat part)) as [->|Hj].
      * rewrite Hp in Hstored. simpl in Hstored. destruct Hstored as [Hhash Hc].
        eexists. split_and!; [done|apply setElem_lookup_eq|done|]. congruence.
      * exists p. split_and!; try done. by apply setElem_lookup_other.
    + exists d, p. by rewrite lookup_insert_ne.
Qed.

(** X7. Once an upload has its hash, no [PutPart] adds a part record to it:
    the hash stays, the number of slots stays, and a slot without record
    stays without. *)
Theorem PutPart_sealed s uploadId part r size hash s' err d whole :
  mgo.docs (uploadc s) !! uploadId = Some d →
  mgo.hash d = Some whole →
  PutPart s uploadId part r size hash = (s', err) →
  ∃ d', mgo.docs (uploadc s') !! uploadId = Some d' ∧
        mgo.hash d' = Some whole ∧
        length (mgo.parts d') = length (mgo.parts d) ∧
        ∀ (j : nat) q, mgo.parts d' !! j = Some (Some q) →
                       ∃ q0, mgo.parts d !! j = Some (Some q0).
Proof.
  intros Hd Hwhole Hput.
  apply PutPart_effect in Hput
    as [[Hsame _]|(d0 & complete & _ & _ & Hd0 & _ & Hstored & _ & Hdocs)].
  - exists d. rewrite Hsame. split_and!; eauto.
  - assert (d0 = d) as -> by congruence.
    destruct (mgo.parts d !! Z.to_nat part) as [[p|]|] eqn:Hp; simpl in Hstored;
      [|congruence|congruence].
    pose proof (lookup_lt_Some _ _ _ Hp) as Hlt.
    eexists. rewrite Hdocs, lookup_insert_eq. split_and!; try done.
    + simpl. rewrite setElem_length. lia.
    + intros j q Hj. simpl in Hj. destruct (decide (j = Z.to_nat part)) as [->|Hne].
      * eauto.
      * exists q. by apply (setElem_lookup_ne _ _ _ _ _ Hne Hj).
Qed.

(** X8. [PutPart] keeps the collection free of uploads with two part
    records below the minimum size: it writes a part record only when
    every other record of the upload has at least that size. *)
Theorem PutPart_atMostOneSmall s uploadId part r size hash s' err :
  atMostOneSmall (uploadc s) →
  PutPart s uploadId part r size hash = (s', err) →
  atMostOneSmall (uploadc s').
Proof.
  intros Hinv Hput.
  apply PutPart_effect in Hput
    as [[Hsame _]|(d & complete & Hpos & _ & Hd & Hcheck & _ & _ & Hdocs)].
  - intros id d i j p q. rewrite Hsame. apply Hinv.
  - apply checkPartSizes_None in Hcheck as [_ Hothers].
    intros id d' i j p q Hd'. rewrite Hdocs in Hd'.
    destruct (decide (id = uploadId)) as [->|Hne].
    + rewrite lookup_insert_eq in Hd'. injection Hd' as <-. simpl.
      intros Hi Hj Hp Hq.
      assert (∀ (k : nat) x,
                mgo.setElem (mgo.parts d) (Z.to_nat part)
                  (PartInfo.mk hash size complete) !! k = Some (Some x) →
                PartInfo.Size x < minPartSize → k = Z.to_nat part) as Hat.
      { intros k x Hk Hx. destruct (decide (k = Z.to_nat part)) as [|Hkp]; [done|].
        apply (setElem_lookup_ne _ _ _ _ _ Hkp) in Hk.
        specialize (Hothers k x Hk). lia. }
      rewrite (Hat i p Hi Hp), (Hat j q Hj Hq). done.
    + rewrite lookup_insert_ne in Hd' by done. by apply (Hinv id d' i j p q).
Qed.

End TrackerEffects.

(** ** Unknown uploads, and removal *)

Section Lifecycle.

Context {B : Type} `{!Backend B}.
Variable sha384hex : list Byte.byte → string.
Implicit Types (s : Store B) (udoc : uploadDoc.t).

Lemma getUpload_missing s uploadId :
  mgo.fault (uploadc s) mgo.OpFindOne = None →
  mgo.docs (uploadc s) !! uploadId = None →
  getUpload s uploadId
    = inl (errgo.WithCausef None ErrNotFound (MsgUploadIdNotFound uploadId)).
Proof. intros Hf Hd. unfold getUpload, mgo.FindId. by rewrite Hf, Hd. Qed.

(** X2. For an id that no document has, [PutPart] (with a part number and a
    size in range), [UploadInfo] and [FinishUpload] return an error whose
    cause is [ErrNotFound], [RemoveUpload] returns no error, and none of
    them changes the store. *)
Theorem unknown_upload s uploadId :
  mgo.fault (uploadc s) mgo.OpFindOne = None →
  mgo.docs (uploadc s) !! uploadId = None →
  (∀ part r size hash,
     0 ≤ part < maxParts → 0 < size < maxPartSize →
     ∃ err, PutPart s uploadId part r size hash = (s, Some err) ∧
            errgo.Cause err = ErrNotFound) ∧
  (∃ err, UploadInfo s uploadId = Fail err ∧ errgo.Cause err = ErrNotFound) ∧
  (∀ parts, ∃ err, FinishUpload sha384hex s uploadId parts = (s, Fail err) ∧
                   errgo.Cause err = ErrNotFound) ∧
  RemoveUpload s uploadId = (s, None).
Proof.
  intros Hf Hd. pose proof (getUpload_missing s uploadId Hf Hd) as Hget.
  split_and!.
  - intros part r size hash Hpart Hsize. unfold PutPart.
    repeat (case_decide; [lia|]). rewrite Hget. by eexists.
  - unfold UploadInfo. rewrite Hget. by eexists.
  - intros parts. unfold FinishUpload. rewrite Hget. by eexists.
  - unfold RemoveUpload. by rewrite Hget.
Qed.

Lemma removeBlobs_uploadc s uploadId parts removeErr :
  uploadc (removeBlobs s uploadId 0 parts removeErr).1 = uploadc s.
Proof. change 0 with (Z.of_nat 0). by rewrite removeBlobs_removeAll. Qed.

(** What [removeUpload] does to the documents: it removes the document
    of the upload, or leaves all as they are. *)
Lemma removeUpload_docs s udoc s' err :
  removeUpload s udoc = (s', err) →
  mgo.fault (uploadc s') = mgo.fault (uploadc s) ∧
  mgo.cursorFault (uploadc s') = mgo.cursorFault (uploadc s) ∧
  (mgo.docs (uploadc s') = delete (uploadDoc.Id udoc) (mgo.docs (uploadc s)) ∨
   (s' = s ∧ (err = None → mgo.fault (uploadc s) mgo.OpRemove = None →
              mgo.docs (uploadc s) !! uploadDoc.Id udoc = None))).
Proof.
  assert (∀ c id sel c' e,
            mgo.Remove c id sel = (c', e) →
            mgo.fault c' = mgo.fault c ∧ mgo.cursorFault c' = mgo.cursorFault c ∧
            ((e = None ∧ mgo.docs c' = delete id (mgo.docs c)) ∨
             (c' = c ∧ e ≠ None ∧
              (mgo.fault c mgo.OpRemove = None → e = Some MgoErrNotFound ∧
                 ∀ d, mgo.docs c !! id = Some d → sel d = false)))) as Hremove.
  { intros c id sel c' e. unfold mgo.Remove.
    destruct (mgo.fault c mgo.OpRemove); [intros [= <- <-]; split_and!; try done; by right|].
    destruct (mgo.docs c !! id) as [d|] eqn:Hd.
    - destruct (sel d) eqn:Hsel; intros [= <- <-]; split_and!; try done.
      + by left.
      + right. split_and!; try done. intros _. split; [done|]. congruence.
    - intros [= <- <-]. split_and!; try done. right. by split_and!. }
  assert (∀ s0 removed s1 e,
            removeUploadRest s0 udoc true removed = (s1, e) →
            uploadc s1 = uploadc s0) as Hrest_true.
  { intros s0 removed s1 e. unfold removeUploadRest. destruct removed; simpl.
    - pose proof (removeBlobs_uploadc s0 (uploadDoc.Id udoc) (uploadDoc.Parts udoc) None)
        as Hsame.
      destruct (removeBlobs _ _ _ _ _) as [s2 [e2|]]; by intros [= <- _].
    - by intros [= <- _]. }
  assert (∀ s0 s1 e,
            removeUploadRest s0 udoc false false = (s1, e) →
            mgo.fault (uploadc s1) = mgo.fault (uploadc s0) ∧
            mgo.cursorFault (uploadc s1) = mgo.cursorFault (uploadc s0) ∧
            (mgo.docs (uploadc s1) = delete (uploadDoc.Id udoc) (mgo.docs (uploadc s0)) ∨
             (s1 = s0 ∧ (e = None → mgo.fault (uploadc s0) mgo.OpRemove = None →
                         mgo.docs (uploadc s0) !! uploadDoc.Id udoc = None))))
    as Hrest_false.
  { intros s0 s1 e. unfold removeUploadRest, mgo.RemoveId.
    destruct (mgo.Remove _ _ _) as [c e0] eqn:Hrm.
    destruct (Hremove _ _ _ _ _ Hrm) as (Hf & Hcf & [[-> Hdel]|(-> & Hne & Hnf)]).
    - simpl. intros [= <- <-]. split_and!; try done. by left.
    - destruct e0 as [e0|]; [|done]. rewrite withUploadc_same.
      destruct (errgo.IsMgoErrNotFound e0); simpl; intros [= <- <-];
        split_and!; try done; right; split; try done.
      intros _ Hnofault. destruct (Hnf Hnofault) as [_ Hsel].
      destruct (mgo.docs (uploadc s0) !! uploadDoc.Id udoc) as [d|] eqn:Hd; [|done].
      by specialize (Hsel d eq_refl). }
  unfold removeUpload. case_decide.
  - destruct (mgo.Remove _ _ _) as [c e0] eqn:Hrm.
    destruct (Hremove _ _ _ _ _ Hrm) as (Hf & Hcf & [[-> Hdel]|(-> & Hne & Hnf)]).
    + intros Hrest. apply Hrest_true in Hrest. simpl in Hrest. rewrite Hrest.
      split_and!; try done. by left.
    + destruct e0 as [e0|]; [|done]. rewrite withUploadc_same.
      destruct (errgo.IsMgoErrNotFound e0).
      * apply Hrest_false.
      * intros [= <- <-]. split_and!; try done. by right.
  - apply Hrest_false.
Qed.

(** X17. [RemoveUpload] is "a no-op if called twice": when it has returned
    no error, calling it again on the same id returns no error and
    changes nothing. *)
Theorem RemoveUpload_twice s uploadId s' :
  RemoveUpload s uploadId = (s', None) →
  RemoveUpload s' uploadId = (s', None).
Proof.
  intros Hfirst. pose proof Hfirst as Hagain. unfold RemoveUpload in Hfirst.
  destruct (getUpload s uploadId) as [e|udoc] eqn:Hget.
  - destruct (errgo.IsErrNotFound (errgo.Cause e)); [|done].
    by injection Hfirst as <-.
  - apply getUpload_inr in Hget as (Hf & d & Hd & ->).
    apply removeUpload_docs in Hfirst as (Hfault & _ & [Hdel|[-> _]]); [|done].
    unfold RemoveUpload. rewrite getUpload_missing; [done|by rewrite Hfault|].
    rewrite Hdel. simpl. apply lookup_delete_eq.
Qed.

(** X18. When the driver does not fail, [RemoveUpload] removes the document
    of the upload whatever else it returns (an error can only come from
    the removal of the blobs), leaves the other uploads alone, and
    [UploadInfo] then finds nothing. *)
Theorem RemoveUpload_removes s uploadId s' err :
  mgo.fault (uploadc s) mgo.OpFindOne = None →
  mgo.fault (uploadc s) mgo.OpRemove = None →
  RemoveUpload s uploadId = (s', err) →
  mgo.docs (uploadc s') = delete uploadId (mgo.docs (uploadc s)) ∧
  ∃ e, UploadInfo s' uploadId = Fail e ∧ errgo.Cause e = ErrNotFound.
Proof.
  intros Hfind Hrm Hremove.
  assert (mgo.fault (uploadc s') = mgo.fault (uploadc s) ∧
          mgo.docs (uploadc s') = delete uploadId (mgo.docs (uploadc s)))
    as [Hfault Hdocs].
  { unfold RemoveUpload in Hremove.
    destruct (mgo.docs (uploadc s) !! uploadId) as [d|] eqn:Hd.
    - rewrite (getUpload_found _ _ d Hfind Hd) in Hremove.
      destruct (decide (uploadDoc.Hash (mgo.decode uploadId d) = "")) as [Hfresh|Hdone].
      + destruct (mgo.hash d) as [whole|] eqn:Hhash.
        * rewrite (removeUpload_lost_race s _ d whole) in Hremove by done.
          by injection Hremove as <- _.
        * rewrite (removeUpload_unfinished s _ d) in Hremove by done.
          by injection Hremove as <- _.
      + rewrite removeUpload_finished in Hremove by done. by injection Hremove as <- _.
    - rewrite (getUpload_missing _ _ Hfind Hd) in Hremove. simpl in Hremove.
      injection Hremove as <- _. by rewrite delete_id. }
  split; [done|]. unfold UploadInfo.
  rewrite getUpload_missing; [by eexists|by rewrite Hfault|].
  rewrite Hdocs. apply lookup_delete_eq.
Qed.

End Lifecycle.

(** ** What a [FinishUpload] does to the store *)

Lemma Update_unchanged_on_error c id sel update c' err :
  mgo.Update c id sel update = (c', Some err) → c' = c.
Proof.
  unfold mgo.Update. destruct (mgo.fault c mgo.OpUpdate); [by intros [= <- _]|].
  destruct (mgo.docs c !! id) as [d|]; [|by intros [= <- _]].
  destruct (sel d); [done|by intros [= <- _]].
Qed.

Section FinalizerEffects.

Context {B : Type} `{!Backend B}.
Variable sha384hex : list Byte.byte → string.
Implicit Types (s : Store B) (udoc : uploadDoc.t).

(** [setUploadHash] changes nothing, or sets the hash it returns in the
    stored document. *)
Lemma setUploadHash_effect s uploadId udoc s' out :
  setUploadHash sha384hex s uploadId udoc = (s', out) →
  (s' = s ∧ ∀ hash, out = Ok hash → uploadDoc.Hash udoc = hash ∧ hash ≠ "") ∨
  (uploadDoc.Hash udoc = "" ∧
   ∃ d hash,
     mgo.docs (uploadc s) !! uploadId = Some d ∧
     mgo.fault (uploadc s) mgo.OpUpdate = None ∧
     out = Ok hash ∧
     wholeHash sha384hex s uploadId udoc = Ok hash ∧
     s' = withUploadc s
            (mgo.withDocs (uploadc s)
               (<[uploadId := mgo.setHash hash d]> (mgo.docs (uploadc s))))).
Proof.
  unfold setUploadHash. case_decide as Hhash.
  - intros [= <- <-]. left. split; [done|]. by intros hash [= <-].
  - destruct (wholeHash _ _ _ _) as [hash| |] eqn:Hwhole;
      [|intros [= <- <-]; by left..].
    destruct (mgo.UpdateId _ _ _) as [c [e|]] eqn:Hup.
    + apply Update_unchanged_on_error in Hup as ->. rewrite withUploadc_same.
      destruct (errgo.IsMgoErrNotFound e); intros [= <- <-]; by left.
    + intros [= <- <-]. right. split; [done|].
      apply Update_ok in Hup as (Hf & d & Hd & _ & ->). by exists d, hash.
Qed.

Lemma FinishUpload_effect s uploadId parts s' out :
  FinishUpload sha384hex s uploadId parts = (s', out) →
  s' = s ∨
  ∃ d hash,
    mgo.docs (uploadc s) !! uploadId = Some d ∧
    s' = withUploadc s
           (mgo.withDocs (uploadc s)
              (<[uploadId := mgo.setHash hash d]> (mgo.docs (uploadc s)))).
Proof.
  unfold FinishUpload.
  destruct (getUpload s uploadId) as [?|udoc]; [intros [= <- _]; by left|].
  case_decide; [intros [= <- _]; by left|].
  destruct (checkParts _ _ _); [|intros [= <- _]; by left..].
  destruct (checkPartSizes _ _ _); [intros [= <- _]; by left|].
  destruct (setUploadHash _ _ _ _) as [s1 out1] eqn:Hset.
  assert (s1 = s ∨
          ∃ d hash,
            mgo.docs (uploadc s) !! uploadId = Some d ∧
            s1 = withUploadc s
                   (mgo.withDocs (uploadc s)
                      (<[uploadId := mgo.setHash hash d]> (mgo.docs (uploadc s)))))
    as Hs1.
  { apply setUploadHash_effect in Hset as [[-> _]|(_ & d & hash & Hd & _ & _ & _ & ->)];
      [by left|right; by exists d, hash]. }
  destruct out1 as [hash|e|].
  - destruct (fillSizes _ _ _); by intros [= <- _].
  - destruct (errgo.IsErrNotFound _); by intros [= <- _].
  - by intros [= <- _].
Qed.

(** X12. [FinishUpload] "does not delete the multipart metadata": whatever
    it returns, the backend and the log are as before, no upload is
    created or removed, the other uploads are as before, and the upload
    itself keeps its parts and its expiry (only its hash can change). *)
Theorem FinishUpload_frame s uploadId parts s' out :
  FinishUpload sha384hex s uploadId parts = (s', out) →
  backend s' = backend s ∧ logged s' = logged s ∧
  (∀ id, id ≠ uploadId →
         mgo.docs (uploadc s') !! id = mgo.docs (uploadc s) !! id) ∧
  (mgo.docs (uploadc s) !! uploadId = None →
   mgo.docs (uploadc s') !! uploadId = None) ∧
  (∀ d, mgo.docs (uploadc s) !! uploadId = Some d →
        ∃ d', mgo.docs (uploadc s') !! uploadId = Some d' ∧
              mgo.parts d' = mgo.parts d ∧ mgo.expires d' = mgo.expires d).
Proof.
  intros [->|(d & hash & Hd & ->)]%FinishUpload_effect.
  - split_and!; try done. intros d Hd. by exists d.
  - simpl. split_and!; try done.
    + intros id Hne. by rewrite lookup_insert_ne.
    + congruence.
    + intros d0 Hd0. assert (d0 = d) as -> by congruence.
      eexists. by rewrite lookup_insert_eq.
Qed.

Lemma FinishUpload_ok_found s uploadId parts s' result :
  FinishUpload sha384hex s uploadId parts = (s', Ok result) →
  mgo.fault (uploadc s) mgo.OpFindOne = None.
Proof.
  unfold FinishUpload.
  destruct (getUpload s uploadId) as [?|udoc] eqn:Hget; [done|].
  by apply getUpload_inr in Hget as (Hf & _).
Qed.

(** X13. After a [FinishUpload] that succeeds, every expected part matches a
    complete stored part, and [UploadInfo] reports those parts and the
    hash that was returned. *)
Theorem FinishUpload_marks_finished s uploadId parts s' idx hash :
  FinishUpload sha384hex s uploadId parts = (s', Ok (idx, hash)) →
  ∃ d, mgo.docs (uploadc s) !! uploadId = Some d ∧
       Forall2 partMatches parts (mgo.parts d) ∧
       UploadInfo s' uploadId = Ok (UploadInfo.mk (mgo.parts d) (mgo.expires d) hash).
Proof.
  intros Hfin. pose proof (FinishUpload_ok_found _ _ _ _ _ Hfin) as Hfound.
  apply FinishUpload_Ok in Hfin as (d & Hd & Hmatch & _ & Hset & _).
  exists d. split_and!; try done.
  apply setUploadHash_effect in Hset
    as [[-> Hsame]|(_ & d0 & hash0 & Hd0 & _ & [= <-] & _ & ->)].
  - destruct (Hsame hash eq_refl) as [Hhash _].
    unfold UploadInfo. rewrite (getUpload_found _ _ d Hfound Hd). simpl in *.
    by rewrite Hhash.
  - unfold UploadInfo.
    rewrite (getUpload_found _ _ (mgo.setHash hash d0)); [|done|apply lookup_insert_eq].
    assert (d0 = d) as -> by congruence. done.
Qed.

Lemma copyParts_backend s1 s2 uploadId parts : ∀ h i,
  backend s1 = backend s2 →
  copyParts s1 uploadId h i parts = copyParts s2 uploadId h i parts.
Proof.
  induction parts as [|pu rest IH]; intros h i Hback; simpl; [done|].
  unfold copyBlob. rewrite Hback.
  destruct (Open (backend s2) _) as [e|[rc size]]; [done|].
  destruct (rdErr rc) as [e|].
  - by destruct (errgo.IsMgoErrNotFound _).
  - by apply IH.
Qed.

(** X14. [FinishUpload] can be repeated: after it has succeeded, the same
    call returns the same index and hash and changes nothing. *)
Theorem FinishUpload_twice s uploadId parts s' idx hash :
  FinishUpload sha384hex s uploadId parts = (s', Ok (idx, hash)) →
  FinishUpload sha384hex s' uploadId parts = (s', Ok (idx, hash)).
Proof.
  intros Hfin. pose proof (FinishUpload_ok_found _ _ _ _ _ Hfin) as Hfound.
  pose proof Hfin as Hagain.
  apply FinishUpload_Ok in Hfin as (d & Hd & Hmatch & Hsizes & Hset & Hidx).
  apply setUploadHash_effect in Hset
    as [[-> _]|(Hfresh & d0 & hash0 & Hd0 & Hupd & [= <-] & Hwhole & ->)]; [done|].
  assert (d0 = d) as -> by congruence.
  destruct idx as [sizes]. simpl in Hidx. subst sizes.
  apply (FinishUpload_accepts _ _ _ _ (mgo.setHash hash d)); try done.
  { simpl. apply lookup_insert_eq. }
  destruct (decide (hash = "")) as [->|Hne].
  - rewrite (setUploadHash_write _ _ _ _ "" (mgo.setHash "" d)); try done.
    + f_equal. simpl. rewrite insert_insert_eq. done.
    + rewrite <- Hwhole. unfold wholeHash. simpl.
      case_decide; [done|]. by rewrite (copyParts_backend _ s).
    + simpl. apply lookup_insert_eq.
  - by apply setUploadHash_done.
Qed.

(** The loop over the parts stops at the first blob that cannot be
    opened. *)
Lemma copyParts_open_fails s uploadId parts : ∀ (i : nat) h datas err,
  (length datas < length parts)%nat →
  (∀ (j : nat) data, datas !! j = Some data →
     ∃ size, Open (backend s) (uploadPartName uploadId (Z.of_nat (i + j)))
             = inr (mkReader data None, size)) →
  Open (backend s) (uploadPartName uploadId (Z.of_nat (i + length datas))) = inl err →
  copyParts s uploadId h (Z.of_nat i) parts
    = inl (errgo.Mask
             (errgo.NoteMask err
                (MsgCannotOpenBlob (uploadPartName uploadId (Z.of_nat (i + length datas))))
                [errgo.IsErrNotFound])
             [errgo.IsErrNotFound]).
Proof.
  induction parts as [|pu rest IH]; intros i h datas err Hlen Hblobs Hfail; simpl in *;
    [lia|].
  destruct datas as [|data datas]; simpl in *.
  - rewrite Nat.add_0_r in Hfail |- *. unfold copyBlob. by rewrite Hfail.
  - destruct (Hblobs 0%nat data eq_refl) as [size Hopen].
    rewrite Nat.add_0_r in Hopen. rewrite (copyBlob_read _ _ _ _ _ Hopen).
    replace (Z.of_nat i + 1) with (Z.of_nat (S i)) by lia.
    rewrite (IH (S i) _ datas err); [|lia| |].
    + by replace (S i + length datas)%nat with (i + S (length datas))%nat by lia.
    + intros j data' Hj.
      replace (S i + j)%nat with (i + S j)%nat by lia. by apply Hblobs.
    + by replace (S i + length datas)%nat with (i + S (length datas))%nat by lia.
Qed.

(** X15. When the blob of a part cannot be opened, [FinishUpload] fails and
    sets no hash. The error is "upload expired or removed" when the
    cause of the backend's error is [ErrNotFound]; otherwise the
    backend's error, annotated with the name of the blob. *)
Theorem FinishUpload_blob_missing s uploadId parts d datas err :
  mgo.fault (uploadc s) mgo.OpFindOne = None →
  mgo.docs (uploadc s) !! uploadId = Some d →
  mgo.hash d = None →
  Forall2 partMatches parts (mgo.parts d) →
  checkPartSizes (mgo.parts d) (-1) 0 = None →
  length (mgo.parts d) ≠ 1%nat →
  (length datas < length (mgo.parts d))%nat →
  partBlobs s uploadId datas →
  Open (backend s) (uploadPartName uploadId (Z.of_nat (length datas))) = inl err →
  FinishUpload sha384hex s uploadId parts =
    (s, Fail (if errgo.IsErrNotFound (errgo.Cause err)
              then errgo.Newf MsgUploadExpiredOrRemoved
              else errgo.Mask
                     (errgo.Mask
                        (errgo.NoteMask err
                           (MsgCannotOpenBlob
                              (uploadPartName uploadId (Z.of_nat (length datas))))
                           [errgo.IsErrNotFound])
                        [errgo.IsErrNotFound])
                     [])).
Proof.
  intros Hfind Hd Hnone Hmatch Hsizes Hmany Hlen Hblobs Hfail.
  unfold FinishUpload. rewrite (getUpload_found _ _ d Hfind Hd). simpl.
  pose proof (Forall2_length _ _ _ Hmatch) as Hcount.
  case_decide; [done|].
  destruct (checkParts_matches (mgo.parts d) parts Hcount) as [[_ ->]|[Hno _]]; [|done].
  rewrite Hsizes. unfold setUploadHash. simpl. rewrite Hnone. simpl.
  unfold wholeHash. simpl. case_decide; [done|].
  change 0 with (Z.of_nat 0).
  rewrite (copyParts_open_fails s uploadId (mgo.parts d) 0 [] datas err Hlen Hblobs Hfail).
  simpl. destruct (errgo.IsErrNotFound (errgo.Cause err)) eqn:Hcause; simpl;
    rewrite ?Hcause; simpl; by rewrite ?Hcause.
Qed.

End FinalizerEffects.

(** ** Creation, placeholders and retries *)

Section TrackerPaths.

Context {B : Type} `{!Backend B}.
Implicit Types (s : Store B) (r : Reader).

(** X1. A new upload is there for [UploadInfo], with no parts, the expiry
    that was given and no hash; its id was free before, and the other
    uploads, the backend and the log are untouched. *)
Theorem NewUpload_then_info s oid expires s' uploadId :
  mgo.fault (uploadc s) mgo.OpFindOne = None →
  NewUpload s oid expires = (s', Ok uploadId) →
  uploadId = oid ∧
  mgo.docs (uploadc s) !! uploadId = None ∧
  UploadInfo s' uploadId = Ok (UploadInfo.mk [] expires "") ∧
  (∀ id, id ≠ uploadId →
         mgo.docs (uploadc s') !! id = mgo.docs (uploadc s) !! id) ∧
  backend s' = backend s ∧ logged s' = logged s.
Proof.
  intros Hfind. unfold NewUpload, mgo.Insert.
  destruct (mgo.fault (uploadc s) mgo.OpInsert); [done|]. simpl.
  destruct (mgo.docs (uploadc s) !! oid) eqn:Hfree; [done|]. simpl.
  intros [= <- <-]. split_and!; try done.
  - unfold UploadInfo.
    by rewrite (getUpload_found _ _ (mgo.mkDocument None expires []));
      [|done|apply lookup_insert_eq].
  - intros id Hne. simpl. by rewrite lookup_insert_ne.
Qed.


(** X10. A [PutPart] can be retried after the backend has failed to store
    the blob: the failed call leaves the placeholder of the part, not
    complete, and the same call again, once the backend stores the blob,
    succeeds and marks the part complete. *)
Theorem PutPart_retry_after_failed_put s uploadId part r r' size hash d b1 b2 err :
  0 ≤ part < maxParts → 0 < size < maxPartSize →
  mgo.fault (uploadc s) mgo.OpFindOne = None →
  mgo.fault (uploadc s) mgo.OpUpdate = None →
  mgo.docs (uploadc s) !! uploadId = Some d →
  mgo.hash d = None →
  mjoin (mgo.parts d !! Z.to_nat part) = None →
  checkPartSizes (mgo.parts d) part size = None →
  Put (backend s) r (uploadPartName uploadId part) size hash = (b1, Some err) →
  Put b1 r' (uploadPartName uploadId part) size hash = (b2, None) →
  let stored complete :=
    mgo.withDocs (uploadc s)
      (<[uploadId := mgo.setPart (Z.to_nat part) (PartInfo.mk hash size complete) d]>
         (mgo.docs (uploadc s))) in
  PutPart s uploadId part r size hash
    = (mkStore (stored false) b1 (logged s),
       Some (errgo.Notef err (MsgCannotUploadPart (uploadPartName uploadId part)))) ∧
  PutPart (mkStore (stored false) b1 (logged s)) uploadId part r' size hash
    = (mkStore (stored true) b2 (logged s), None).
Proof.
  intros Hpart Hsize Hfind Hupd Hd Hnone Hfree Hcheck Hput1 Hput2 stored. split.
  - unfold PutPart. repeat (case_decide; [lia|]).
    rewrite (getUpload_found _ _ d Hfind Hd). simpl. rewrite Hcheck.
    rewrite storedPart_mjoin by lia. simpl. rewrite Hfree, Hnone. simpl.
    unfold initializePart.
    rewrite (Update_found _ _ _ _ d Hupd Hd).
    2:{ unfold mgo.hashNotExists, mgo.partNotExistsOrNull. rewrite Hnone.
        by destruct (mgo.parts d !! Z.to_nat part) as [[?|]|]. }
    unfold putAndMarkComplete. simpl. by rewrite Hput1.
  - unfold PutPart. repeat (case_decide; [lia|]).
    rewrite (getUpload_found _ _
               (mgo.setPart (Z.to_nat part) (PartInfo.mk hash size false) d));
      [|done|apply lookup_insert_eq].
    simpl. rewrite checkPartSizes_setElem by (done || lia).
    rewrite storedPart_mjoin by lia. simpl. rewrite setElem_lookup_eq. simpl.
    case_decide; [done|].
    unfold putAndMarkComplete. simpl. rewrite Hput2. unfold mgo.UpdateId.
    rewrite (Update_found _ _ _ _
               (mgo.setPart (Z.to_nat part) (PartInfo.mk hash size false) d));
      [|done|apply lookup_insert_eq|done].
    simpl. unfold stored, mgo.withDocs, mgo.setPart. simpl.
    by rewrite insert_insert_eq, setElem_setElem.
Qed.

(** X11. The blobs of two different parts of an upload have different
    names. *)
Theorem uploadPartName_inj uploadId part1 part2 :
  uploadPartName uploadId part1 = uploadPartName uploadId part2 → part1 = part2.
Proof.
  unfold uploadPartName. intros Heq.
  apply String.app_inj in Heq. apply String.app_inj in Heq.
  by apply pretty_Z_inj in Heq.
Qed.

End TrackerPaths.

(** ** More on the sweep of expired uploads *)

Lemma Find_complete c sel id d :
  mgo.cursorFault c = None →
  mgo.docs c !! id = Some d → sel d = true →
  mgo.decode id d ∈ (mgo.Find c sel).1.
Proof.
  intros Hnofault Hd Hsel. unfold mgo.Find. rewrite Hnofault. simpl.
  apply list_elem_of_fmap. exists (id, d). split; [done|].
  apply list_elem_of_In, filter_In. split; [|done].
  by apply list_elem_of_In, elem_of_map_to_list.
Qed.

Section SweepEffects.

Context {B : Type} `{!Backend B}.
Implicit Types (s : Store B) (udoc : uploadDoc.t).

Lemma removeEach_fault_kept cursor : ∀ s s' err,
  removeEach s cursor = (s', err) →
  mgo.fault (uploadc s') = mgo.fault (uploadc s).
Proof.
  induction cursor as [|udoc rest IH]; intros s s' err; simpl.
  - by intros [= <- _].
  - destruct (removeUpload s udoc) as [s1 [e|]] eqn:Hrm;
      apply removeUpload_docs in Hrm as (Hf & _).
    + by intros [= <- _].
    + intros Hrest. by rewrite (IH _ _ _ Hrest).
Qed.

(** The loop of the sweep never brings a document back. *)
Lemma removeEach_stays_gone cursor : ∀ s s' err id,
  removeEach s cursor = (s', err) →
  mgo.docs (uploadc s) !! id = None → mgo.docs (uploadc s') !! id = None.
Proof.
  induction cursor as [|udoc rest IH]; intros s s' err id; simpl.
  - by intros [= <- _].
  - destruct (removeUpload s udoc) as [s1 e1] eqn:Hrm.
    intros Heach Hgone.
    assert (mgo.docs (uploadc s1) !! id = None) as Hgone1.
    { apply removeUpload_docs in Hrm as (_ & _ & [Hdel|[-> _]]); [|done].
      rewrite Hdel. by apply lookup_delete_None; right. }
    destruct e1; [by injection Heach as <- _|]. by eapply IH.
Qed.

Lemma removeEach_ok_gone cursor : ∀ s s',
  mgo.fault (uploadc s) mgo.OpRemove = None →
  removeEach s cursor = (s', None) →
  ∀ udoc, udoc ∈ cursor → mgo.docs (uploadc s') !! uploadDoc.Id udoc = None.
Proof.
  induction cursor as [|first rest IH]; intros s s' Hf Heach udoc Hin; simpl in *.
  - by apply elem_of_nil in Hin.
  - destruct (removeUpload s first) as [s1 [e|]] eqn:Hrm; [done|].
    pose proof Hrm as Hdocs.
    apply removeUpload_docs in Hdocs as (Hfault & _ & Hgone).
    apply elem_of_cons in Hin as [->|Hin].
    + apply (removeEach_stays_gone _ _ _ _ _ Heach).
      destruct Hgone as [Hdel|[-> Hnone]].
      * rewrite Hdel. apply lookup_delete_eq.
      * by apply Hnone.
    + apply (IH s1); [by rewrite Hfault|done|done].
Qed.

(** X19. A sweep, whatever it returns, leaves every upload that has not
    expired as it is. *)
Theorem RemoveExpiredUploads_spares s now s' err uploadId d :
  RemoveExpiredUploads s now = (s', err) →
  mgo.docs (uploadc s) !! uploadId = Some d →
  now ≤ mgo.expires d →
  mgo.docs (uploadc s') !! uploadId = Some d.
Proof.
  unfold RemoveExpiredUploads.
  destruct (mgo.Find _ _) as [cursor itErr] eqn:Hfind.
  destruct (removeEach s cursor) as [s1 e1] eqn:Heach.
  intros Hsweep Hd Hlive.
  assert (s' = s1) as ->.
  { destruct e1; [by injection Hsweep as <- _|].
    by destruct itErr; injection Hsweep as <- _. }
  rewrite (removeEach_other _ _ _ _ _ Heach); [done|].
  intros (udoc & -> & Hin)%list_elem_of_fmap.
  apply Find_delivers in Hfind as [_ Hstored].
  destruct (Hstored udoc Hin) as (d' & Hd' & Hexp).
  assert (d' = d) as -> by congruence.
  unfold mgo.expiresBefore in Hexp. apply bool_decide_eq_true in Hexp. lia.
Qed.

(** X20. A sweep that returns no error, on a driver that does not fail on
    removals, has removed every upload that had expired. *)
Theorem RemoveExpiredUploads_removes_expired s now s' uploadId d :
  mgo.fault (uploadc s) mgo.OpRemove = None →
  RemoveExpiredUploads s now = (s', None) →
  mgo.docs (uploadc s) !! uploadId = Some d →
  mgo.expires d < now →
  mgo.docs (uploadc s') !! uploadId = None.
Proof.
  intros Hf. unfold RemoveExpiredUploads.
  destruct (mgo.Find _ _) as [cursor itErr] eqn:Hfind.
  destruct (removeEach s cursor) as [s1 [e1|]] eqn:Heach; [done|].
  destruct itErr as [e|] eqn:HitErr; [done|].
  intros [= <-] Hd Hexp.
  assert (mgo.cursorFault (uploadc s) = None) as Hnofault.
  { unfold mgo.Find in Hfind.
    by destruct (mgo.cursorFault (uploadc s)) as [[n e]|]. }
  apply (removeEach_ok_gone cursor s s1 Hf Heach (mgo.decode uploadId d)).
  replace cursor with (mgo.Find (uploadc s) (mgo.expiresBefore now)).1
    by (by rewrite Hfind).
  apply Find_complete; try done.
  unfold mgo.expiresBefore. by apply bool_decide_eq_true.
Qed.

End SweepEffects.

(** ** The status checks *)

Lemma nameFound_elem names collName :
  v4.nameFound names collName = true ↔ collName ∈ names.
Proof.
  induction names as [|name rest IH]; simpl.
  - split; [done|]. by intros ?%elem_of_nil.
  - case_decide as Heq.
    + split; [|done]. intros _. subst. apply list_elem_of_here.
    + rewrite IH. split.
      * intros Hin. by apply list_elem_of_further.
      * intros [->|Hin]%elem_of_cons; [done|done].
Qed.

Lemma gatherMissing_filter names collections : ∀ missing,
  v4.gatherMissing names collections missing
    = missing ++ filter (λ collName, collName ∉ names) collections.
Proof.
  induction collections as [|collName rest IH]; intros missing; simpl.
  - by rewrite app_nil_r.
  - destruct (v4.nameFound names collName) eqn:Hfound.
    + apply nameFound_elem in Hfound.
      rewrite filter_cons_False by (intros Hnot; by apply Hnot). apply IH.
    + rewrite filter_cons_True.
      * rewrite IH. by rewrite <- app_assoc.
      * intros Hin%nameFound_elem. congruence.
Qed.

(** X21. [checkCollections] passes exactly when every required collection
    is among the collections of the database; when it fails, it reports
    the required collections that are not, each as often and in the
    order in which it is required. *)
Theorem checkCollections_missing names collections :
  v4.checkCollections (inr names) collections
    = match filter (λ collName, collName ∉ names) collections with
      | [] => ("All required collections exist", true)
      | missing => ("Missing collections: " +:+ v4.sprintStrings missing, false)
      end ∧
  ((v4.checkCollections (inr names) collections).2 = true
   ↔ ∀ collName, collName ∈ collections → collName ∈ names).
Proof.
  unfold v4.checkCollections. rewrite gatherMissing_filter. simpl.
  destruct (filter (λ collName, collName ∉ names) collections)
    as [|missing rest] eqn:Hfilter; simpl.
  - split; [done|]. split; [|done]. intros _ collName Hin.
    destruct (decide (collName ∈ names)) as [|Hnot]; [done|].
    assert (collName ∈ filter (λ collName, collName ∉ names) collections) as Hmissing
      by (by apply list_elem_of_filter).
    rewrite Hfilter in Hmissing. by apply elem_of_nil in Hmissing.
  - split; [done|]. split; [done|]. intros Hall. exfalso.
    assert (missing ∈ filter (λ collName, collName ∉ names) collections) as Hmissing
      by (rewrite Hfilter; apply list_elem_of_here).
    apply list_elem_of_filter in Hmissing as [Hnot Hin]. by apply Hnot, Hall.
Qed.

Lemma countEntities_counts entities : ∀ charms bundles promulgated,
  v4.countEntities entities charms bundles promulgated
    = (charms + Z.of_nat (length (filter (λ e, v4.Series e ≠ "bundle") entities)),
       bundles + Z.of_nat (length (filter (λ e, v4.Series e = "bundle") entities)),
       promulgated + Z.of_nat (length (filter (λ e, v4.User e = "") entities))).
Proof.
  induction entities as [|entity rest IH]; intros charms bundles promulgated.
  - simpl. by rewrite !Z.add_0_r.
  - cbn [v4.countEntities]. rewrite !filter_cons.
    destruct (decide (v4.Series entity = "bundle")) as [Hb|Hb];
      destruct (decide (v4.User entity = "")) as [Hu|Hu];
      rewrite IH; repeat case_decide; try done;
      rewrite ?length_cons;
      repeat match goal with |- (_, _) = (_, _) => f_equal end; lia.
Qed.

(** X22. When the cursor closes without error, [checkEntities] passes and
    reports the number of entities that are not bundles, the number of
    bundles and the number of entities without user; the first two add
    up to the number of entities. *)
Theorem checkEntities_counts entities :
  let charms := Z.of_nat (length (filter (λ e, v4.Series e ≠ "bundle") entities)) in
  let bundles := Z.of_nat (length (filter (λ e, v4.Series e = "bundle") entities)) in
  let promulgated := Z.of_nat (length (filter (λ e, v4.User e = "") entities)) in
  v4.checkEntities entities None
    = (pretty charms +:+ " charms; " +:+ pretty bundles +:+ " bundles; "
         +:+ pretty promulgated +:+ " promulgated", true) ∧
  charms + bundles = Z.of_nat (length entities) ∧
  promulgated ≤ Z.of_nat (length entities).
Proof.
  intros charms bundles promulgated. split_and!.
  - unfold v4.checkEntities. by rewrite countEntities_counts.
  - subst charms bundles. clear promulgated.
    induction entities as [|entity rest IH]; [done|].
    rewrite !filter_cons.
    destruct (decide (v4.Series entity = "bundle")) as [Hb|Hb];
      repeat case_decide; try done; rewrite !length_cons; lia.
  - subst promulgated. pose proof (length_filter (λ e, v4.User e = "") entities). lia.
Qed.

Lemma scanLogs_marks logs : ∀ start end_,
  let result := v4.scanLogs logs start end_ in
  (result.1 ≠ 0 ↔ start ≠ 0 ∨ ∃ log, log ∈ logs ∧ marks "ingestion started" log) ∧
  (result.2 ≠ 0 ↔ end_ ≠ 0 ∨ ∃ log, log ∈ logs ∧ marks "ingestion completed" log).
Proof.
  induction logs as [|log rest IH]; intros start end_; simpl.
  - split; (split; [by left|]); intros [?|(log & Hin & _)]; try done;
      by apply elem_of_nil in Hin.
  - assert (∀ prefix (P : Prop),
              (P ∨ ∃ l, l ∈ rest ∧ marks prefix l) →
              (P ∨ ∃ l, l ∈ log :: rest ∧ marks prefix l)) as Hweaken.
    { intros prefix P [?|(l & Hin & Hl)]; [by left|right].
      exists l. split; [by apply list_elem_of_further|done]. }
    destruct (v4.Msg log) as [msg|] eqn:Hmsg.
    + set (start1 := if v4.IsZero start && String.prefix "ingestion started" msg
                     then v4.Time log else start).
      set (end1 := if v4.IsZero end_ && String.prefix "ingestion completed" msg
                   then v4.Time log else end_).
      assert (start1 ≠ 0 ↔ start ≠ 0 ∨ (marks "ingestion started" log ∧ start = 0))
        as Hstart.
      { subst start1. unfold v4.IsZero, marks. rewrite Hmsg.
        case_bool_decide as Hz; simpl.
        - destruct (String.prefix "ingestion started" msg) eqn:Hp.
          + split; [intros Ht; right; split; [by exists msg|done]|].
            intros [?|[(m & [= <-] & _ & Ht) _]]; done.
          + split; [done|]. intros [?|[(m & [= <-] & Hp' & _) _]]; congruence.
        - split; [by left|done]. }
      assert (end1 ≠ 0 ↔ end_ ≠ 0 ∨ (marks "ingestion completed" log ∧ end_ = 0))
        as Hend.
      { subst end1. unfold v4.IsZero, marks. rewrite Hmsg.
        case_bool_decide as Hz; simpl.
        - destruct (String.prefix "ingestion completed" msg) eqn:Hp.
          + split; [intros Ht; right; split; [by exists msg|done]|].
            intros [?|[(m & [= <-] & _ & Ht) _]]; done.
          + split; [done|]. intros [?|[(m & [= <-] & Hp' & _) _]]; congruence.
        - split; [by left|done]. }
      assert (∀ prefix (x x1 : Z),
                (x1 ≠ 0 ↔ x ≠ 0 ∨ (marks prefix log ∧ x = 0)) →
                (x1 ≠ 0 ∨ (∃ l, l ∈ rest ∧ marks prefix l)) ↔
                (x ≠ 0 ∨ ∃ l, l ∈ log :: rest ∧ marks prefix l)) as Hstep.
      { intros prefix x x1 Hx1. split.
        - intros [[?|[Hm _]]%Hx1|Hrest].
          + by left.
          + right. exists log. split; [apply list_elem_of_here|done].
          + by apply Hweaken; right.
        - intros [?|(l & [->|Hin]%elem_of_cons & Hl)].
          + left. apply Hx1. by left.
          + left. apply Hx1. destruct (decide (x = 0)); [by right|by left].
          + right. by exists l. }
      destruct (negb (v4.IsZero start1) && negb (v4.IsZero end1)) eqn:Hboth.
      * apply andb_prop in Hboth as [Hs He].
        unfold v4.IsZero in Hs, He.
        apply negb_true_iff, bool_decide_eq_false in Hs, He. simpl.
        split; (split; [intros _|done]).
        -- apply (Hstep "ingestion started" start start1 Hstart). by left.
        -- apply (Hstep "ingestion completed" end_ end1 Hend). by left.
      * destruct (IH start1 end1) as [IHs IHe]. simpl in IHs, IHe.
        rewrite IHs, IHe. split.
        -- apply (Hstep "ingestion started" start start1 Hstart).
        -- apply (Hstep "ingestion completed" end_ end1 Hend).
    + destruct (IH start end_) as [IHs IHe]. simpl in IHs, IHe.
      rewrite IHs, IHe.
      assert (∀ prefix (P : Prop),
                (P ∨ ∃ l, l ∈ log :: rest ∧ marks prefix l) →
                (P ∨ ∃ l, l ∈ rest ∧ marks prefix l)) as Hdrop.
      { intros prefix P [?|(l & [->|Hin]%elem_of_cons & Hl)]; [by left| |right; eauto].
        destruct Hl as (m & Hm & _). congruence. }
      split; (split; [apply Hweaken|apply Hdrop]).
Qed.

(** X23. When the cursor closes without error, [checkIngestion] passes
    exactly when, among the logs delivered, one with a time other than
    the zero time has a message that begins with "ingestion started" and
    one has a message that begins with "ingestion completed". *)
Theorem checkIngestion_passes rfc3339 logs :
  (v4.checkIngestion rfc3339 logs None).2 = true ↔
  (∃ log, log ∈ logs ∧ marks "ingestion started" log) ∧
  (∃ log, log ∈ logs ∧ marks "ingestion completed" log).
Proof.
  unfold v4.checkIngestion.
  destruct (scanLogs_marks logs 0 0) as [Hstart Hend].
  destruct (v4.scanLogs logs 0 0) as [start end_]. simpl in *.
  unfold v4.IsZero. rewrite negb_true_iff, orb_false_iff, !bool_decide_eq_false.
  rewrite Hstart, Hend. split.
  - intros [[?|?] [?|?]]; done.
  - intros [? ?]. split; by right.
Qed.

(** ** The further properties on the sample stores *)

Lemma sampleNew_doc : mgo.docs (uploadc sampleNew) !! "u1" = Some docNew.
Proof. vm_compute. reflexivity. Qed.

Lemma PutPart_completes_part_witness :
  ∃ info p,
    UploadInfo sampleOnePart "u1" = Ok info ∧
    UploadInfo.Parts info !! Z.to_nat 0 = Some (Some p) ∧
    PartInfo.Hash p = "h0" ∧ PartInfo.Complete p = true.
Proof.
  apply (PutPart_completes_part sampleNew "u1" 0 (bytes "aaa") 5242880 "h0" sampleOnePart).
  vm_compute. reflexivity.
Defined.

Lemma PutPart_frame_witness :
  (∀ id, id ≠ "u1" →
         mgo.docs (uploadc sampleTwoParts) !! id = mgo.docs (uploadc sampleOnePart) !! id) ∧
  (mgo.docs (uploadc sampleOnePart) !! "u1" = None →
   mgo.docs (uploadc sampleTwoParts) !! "u1" = None) ∧
  (∀ d, mgo.docs (uploadc sampleOnePart) !! "u1" = Some d →
        ∃ d', mgo.docs (uploadc sampleTwoParts) !! "u1" = Some d' ∧
              mgo.hash d' = mgo.hash d ∧ mgo.expires d' = mgo.expires d ∧
              ∀ (j : nat) q, j ≠ Z.to_nat 1 →
                mgo.parts d !! j = Some (Some q) →
                mgo.parts d' !! j = Some (Some q)) ∧
  logged sampleTwoParts = logged sampleOnePart ∧
  (backend sampleTwoParts = backend sampleOnePart ∨
   backend sampleTwoParts
     = (Put (backend sampleOnePart) (bytes "bb") (uploadPartName "u1" 1) 5242880 "h1").1).
Proof.
  apply (PutPart_frame sampleOnePart "u1" 1 (bytes "bb") 5242880 "h1" sampleTwoParts None).
  vm_compute. reflexivity.
Defined.

Lemma PutPart_keeps_records_witness :
  ∃ d' p', mgo.docs (uploadc sampleTwoParts) !! "u1" = Some d' ∧
           mgo.parts d' !! 0%nat = Some (Some p') ∧
           PartInfo.Hash p' = PartInfo.Hash part0 ∧
           (PartInfo.Complete part0 = true → p' = part0).
Proof.
  apply (PutPart_keeps_records sampleOnePart "u1" 1 (bytes "bb") 5242880 "h1"
           sampleTwoParts None "u1" docOnePart 0 part0).
  - vm_compute. reflexivity.
  - exact sampleOnePart_doc.
  - reflexivity.
Defined.

Lemma PutPart_sealed_witness :
  ∃ d', mgo.docs (uploadc (PutPart sampleFinished "u1" 2 (bytes "cc") 5242880 "h2").1)
          !! "u1" = Some d' ∧
        mgo.hash d' = Some "aaabb" ∧
        length (mgo.parts d') = length (mgo.parts docFinished) ∧
        ∀ (j : nat) q, mgo.parts d' !! j = Some (Some q) →
                       ∃ q0, mgo.parts docFinished !! j = Some (Some q0).
Proof.
  apply (PutPart_sealed sampleFinished "u1" 2 (bytes "cc") 5242880 "h2" _
           (PutPart sampleFinished "u1" 2 (bytes "cc") 5242880 "h2").2
           docFinished "aaabb").
  - exact sampleFinished_doc.
  - reflexivity.
  - vm_compute. reflexivity.
Defined.

Lemma PutPart_atMostOneSmall_witness : atMostOneSmall (uploadc sampleOnePart).
Proof.
  apply (PutPart_atMostOneSmall sampleNew "u1" 0 (bytes "aaa") 5242880 "h0"
           sampleOnePart None).
  - intros id d i j p q Hd Hi.
    destruct (decide (id = "u1")) as [->|Hne].
    + rewrite sampleNew_doc in Hd. injection Hd as <-. done.
    + change (mgo.docs (uploadc sampleNew))
        with (<["u1" := docNew]> (∅ : gmap string mgo.document)) in Hd.
      by rewrite lookup_insert_ne, lookup_empty in Hd.
  - vm_compute. reflexivity.
Defined.

Lemma unknown_upload_witness :
  (∀ part r size hash,
     0 ≤ part < maxParts → 0 < size < maxPartSize →
     ∃ err, PutPart emptyStore "u1" part r size hash = (emptyStore, Some err) ∧
            errgo.Cause err = ErrNotFound) ∧
  (∃ err, UploadInfo emptyStore "u1" = Fail err ∧ errgo.Cause err = ErrNotFound) ∧
  (∀ parts, ∃ err, FinishUpload plainHex emptyStore "u1" parts = (emptyStore, Fail err) ∧
                   errgo.Cause err = ErrNotFound) ∧
  RemoveUpload emptyStore "u1" = (emptyStore, None).
Proof.
  apply (unknown_upload plainHex emptyStore "u1").
  - reflexivity.
  - reflexivity.
Defined.

Lemma RemoveUpload_twice_witness :
  RemoveUpload (RemoveUpload sampleTwoParts "u1").1 "u1"
    = ((RemoveUpload sampleTwoParts "u1").1, None).
Proof.
  apply (RemoveUpload_twice sampleTwoParts "u1").
  vm_compute. reflexivity.
Defined.

Lemma RemoveUpload_removes_witness :
  mgo.docs (uploadc (RemoveUpload sampleFinished "u1").1)
    = delete "u1" (mgo.docs (uploadc sampleFinished)) ∧
  ∃ e, UploadInfo (RemoveUpload sampleFinished "u1").1 "u1" = Fail e ∧
       errgo.Cause e = ErrNotFound.
Proof.
  apply (RemoveUpload_removes sampleFinished "u1" _ (RemoveUpload sampleFinished "u1").2).
  - reflexivity.
  - reflexivity.
  - vm_compute. reflexivity.
Defined.

Lemma FinishUpload_frame_witness :
  backend sampleFinished = backend sampleTwoParts ∧
  logged sampleFinished = logged sampleTwoParts ∧
  (∀ id, id ≠ "u1" →
         mgo.docs (uploadc sampleFinished) !! id = mgo.docs (uploadc sampleTwoParts) !! id) ∧
  (mgo.docs (uploadc sampleTwoParts) !! "u1" = None →
   mgo.docs (uploadc sampleFinished) !! "u1" = None) ∧
  (∀ d, mgo.docs (uploadc sampleTwoParts) !! "u1" = Some d →
        ∃ d', mgo.docs (uploadc sampleFinished) !! "u1" = Some d' ∧
              mgo.parts d' = mgo.parts d ∧ mgo.expires d' = mgo.expires d).
Proof.
  apply (FinishUpload_frame plainHex sampleTwoParts "u1" expectedTwo sampleFinished
           (Ok (MultipartIndex.mk [5242880; 5242880], "aaabb"))).
  vm_compute. reflexivity.
Defined.

Lemma FinishUpload_marks_finished_witness :
  ∃ d, mgo.docs (uploadc sampleTwoParts) !! "u1" = Some d ∧
       Forall2 partMatches expectedTwo (mgo.parts d) ∧
       UploadInfo sampleFinished "u1"
         = Ok (UploadInfo.mk (mgo.parts d) (mgo.expires d) "aaabb").
Proof.
  apply (FinishUpload_marks_finished plainHex sampleTwoParts "u1" expectedTwo
           sampleFinished (MultipartIndex.mk [5242880; 5242880]) "aaabb").
  vm_compute. reflexivity.
Defined.

Lemma FinishUpload_twice_witness :
  FinishUpload plainHex sampleFinished "u1" expectedTwo
    = (sampleFinished, Ok (MultipartIndex.mk [5242880; 5242880], "aaabb")).
Proof.
  apply (FinishUpload_twice plainHex sampleTwoParts "u1" expectedTwo).
  vm_compute. reflexivity.
Defined.

Lemma FinishUpload_blob_missing_witness :
  FinishUpload plainHex sampleBlobLost "u1" expectedTwo
    = (sampleBlobLost, Fail (errgo.Newf MsgUploadExpiredOrRemoved)).
Proof.
  apply (FinishUpload_blob_missing plainHex sampleBlobLost "u1" expectedTwo docTwoParts
           [rdData (bytes "aaa")] ErrNotFound).
  - reflexivity.
  - vm_compute. reflexivity.
  - reflexivity.
  - exact expectedTwo_matches.
  - vm_compute. reflexivity.
  - by vm_compute.
  - vm_compute. lia.
  - intros [|j] data Hj; simpl in Hj; [|done].
    injection Hj as <-. eexists. vm_compute. reflexivity.
  - vm_compute. reflexivity.
Defined.

Lemma NewUpload_then_info_witness :
  "u1" = "u1" ∧
  mgo.docs (uploadc emptyStore) !! "u1" = None ∧
  UploadInfo sampleNew "u1" = Ok (UploadInfo.mk [] 100 "") ∧
  (∀ id, id ≠ "u1" →
         mgo.docs (uploadc sampleNew) !! id = mgo.docs (uploadc emptyStore) !! id) ∧
  backend sampleNew = backend emptyStore ∧ logged sampleNew = logged emptyStore.
Proof.
  apply (NewUpload_then_info emptyStore "u1" 100 sampleNew "u1").
  - reflexivity.
  - vm_compute. reflexivity.
Defined.


Lemma PutPart_retry_after_failed_put_witness :
  PutPart sampleNew "u1" 0 brokenReader 5242880 "h0"
    = (mkStore
         (mgo.withDocs (uploadc sampleNew)
            (<["u1" := mgo.setPart (Z.to_nat 0) (PartInfo.mk "h0" 5242880 false) docNew]>
               (mgo.docs (uploadc sampleNew))))
         (backend sampleNew) (logged sampleNew),
       Some (errgo.Notef (Foreign "read failed")
               (MsgCannotUploadPart (uploadPartName "u1" 0)))) ∧
  PutPart
    (mkStore
       (mgo.withDocs (uploadc sampleNew)
          (<["u1" := mgo.setPart (Z.to_nat 0) (PartInfo.mk "h0" 5242880 false) docNew]>
             (mgo.docs (uploadc sampleNew))))
       (backend sampleNew) (logged sampleNew))
    "u1" 0 (bytes "aaa") 5242880 "h0"
    = (mkStore
         (mgo.withDocs (uploadc sampleNew)
            (<["u1" := mgo.setPart (Z.to_nat 0) (PartInfo.mk "h0" 5242880 true) docNew]>
               (mgo.docs (uploadc sampleNew))))
         (backend sampleOnePart) (logged sampleNew),
       None).
Proof.
  apply (PutPart_retry_after_failed_put sampleNew "u1" 0 brokenReader (bytes "aaa")
           5242880 "h0" docNew (backend sampleNew) (backend sampleOnePart)
           (Foreign "read failed")).
  - by vm_compute.
  - by vm_compute.
  - reflexivity.
  - reflexivity.
  - exact sampleNew_doc.
  - reflexivity.
  - reflexivity.
  - vm_compute. reflexivity.
  - vm_compute. reflexivity.
  - vm_compute. reflexivity.
Defined.

Lemma uploadPartName_inj_witness :
  uploadPartName "u1" (2 + 1) = uploadPartName "u1" 3 ∧ 2 + 1 = 3.
Proof.
  assert (uploadPartName "u1" (2 + 1) = uploadPartName "u1" 3) as Hsame by reflexivity.
  split; [exact Hsame|]. exact (uploadPartName_inj "u1" (2 + 1) 3 Hsame).
Defined.

Lemma RemoveExpiredUploads_spares_witness :
  mgo.docs (uploadc (RemoveExpiredUploads sampleTwoUploads 100).1) !! "u1"
    = Some docOnePart.
Proof.
  apply (RemoveExpiredUploads_spares sampleTwoUploads 100 _
           (RemoveExpiredUploads sampleTwoUploads 100).2 "u1" docOnePart).
  - vm_compute. reflexivity.
  - vm_compute. reflexivity.
  - by vm_compute.
Defined.

Lemma RemoveExpiredUploads_removes_expired_witness :
  mgo.docs (uploadc (RemoveExpiredUploads sampleTwoParts 200).1) !! "u1" = None.
Proof.
  apply (RemoveExpiredUploads_removes_expired sampleTwoParts 200 _ "u1" docTwoParts).
  - reflexivity.
  - vm_compute. reflexivity.
  - exact sampleTwoParts_doc.
  - by vm_compute.
Defined.

(** ** Driver failures and empty uploads *)

Section Edges.

Context {B : Type} `{!Backend B}.
Variable sha384hex : list Byte.byte → string.
Implicit Types (s : Store B).

(** X3. A driver that fails to look the upload up, other than with
    [mgo.ErrNotFound], is not taken for a missing upload: [RemoveUpload]
    returns an error instead of nothing, the error of [UploadInfo], of
    [FinishUpload] and of a [PutPart] with arguments in range does not
    have [ErrNotFound] as its cause, and nothing is changed. *)
Theorem driver_failure_is_not_missing s uploadId err :
  mgo.fault (uploadc s) mgo.OpFindOne = Some err →
  err ≠ MgoErrNotFound →
  let failure := errgo.Notef err (MsgCannotGetUploadId uploadId) in
  RemoveUpload s uploadId = (s, Some (errgo.Mask failure [])) ∧
  UploadInfo s uploadId = Fail (errgo.Mask failure [errgo.IsErrNotFound]) ∧
  (∀ parts, FinishUpload sha384hex s uploadId parts
            = (s, Fail (errgo.Mask failure [errgo.IsErrNotFound]))) ∧
  (∀ part r size hash,
     0 ≤ part < maxParts → 0 < size < maxPartSize →
     PutPart s uploadId part r size hash
       = (s, Some (errgo.Mask failure [errgo.IsErrNotFound]))) ∧
  errgo.Cause (errgo.Mask failure [errgo.IsErrNotFound]) ≠ ErrNotFound.
Proof.
  intros Hfault Hne failure.
  assert (getUpload s uploadId = inl failure) as Hget.
  { unfold getUpload, mgo.FindId. rewrite Hfault. by destruct err. }
  split_and!.
  - unfold RemoveUpload. by rewrite Hget.
  - unfold UploadInfo. by rewrite Hget.
  - intros parts. unfold FinishUpload. by rewrite Hget.
  - intros part r size hash Hpart Hsize. unfold PutPart.
    repeat (case_decide; [lia|]). by rewrite Hget.
  - done.
Qed.

(** X16. An upload without parts can be finished with an empty list of
    expected parts: the index is empty and the hash is the digest of no
    bytes, whatever the backend holds. *)
Theorem FinishUpload_no_parts s uploadId d :
  mgo.fault (uploadc s) mgo.OpFindOne = None →
  mgo.fault (uploadc s) mgo.OpUpdate = None →
  mgo.docs (uploadc s) !! uploadId = Some d →
  mgo.hash d = None →
  mgo.parts d = [] →
  FinishUpload sha384hex s uploadId []
    = (withUploadc s
         (mgo.withDocs (uploadc s)
            (<[uploadId := mgo.setHash (sha384hex []) d]> (mgo.docs (uploadc s)))),
       Ok (MultipartIndex.mk [], sha384hex [])).
Proof.
  intros Hfind Hupd Hd Hnone Hparts.
  assert (Forall2 partMatches [] (mgo.parts d)) as Hmatch
    by (rewrite Hparts; constructor).
  assert (checkPartSizes (mgo.parts d) (-1) 0 = None) as Hsizes by (by rewrite Hparts).
  assert (wholeHash sha384hex s uploadId (mgo.decode uploadId d) = Ok (sha384hex []))
    as Hwhole by (unfold wholeHash; simpl; by rewrite Hparts).
  assert (uploadDoc.Hash (mgo.decode uploadId d) = "") as Hfresh
    by (simpl; by rewrite Hnone).
  pose proof (setUploadHash_write sha384hex s uploadId _ _ d Hfresh Hwhole Hupd Hd)
    as Hset.
  rewrite (FinishUpload_accepts sha384hex s uploadId [] d _ _ Hfind Hd Hmatch Hsizes Hset).
  by rewrite Hparts.
Qed.

End Edges.

Lemma driver_failure_is_not_missing_witness :
  RemoveUpload
    (mkStore (mgo.mkCollection ∅ (λ _, Some (Foreign "no reachable servers")) None)
       (mkMem ∅ []) [])
    "u1"
  = (mkStore (mgo.mkCollection ∅ (λ _, Some (Foreign "no reachable servers")) None)
       (mkMem ∅ []) [],
     Some (errgo.Mask
             (errgo.Notef (Foreign "no reachable servers") (MsgCannotGetUploadId "u1"))
             [])).
Proof.
  apply (driver_failure_is_not_missing plainHex
           (mkStore (mgo.mkCollection ∅ (λ _, Some (Foreign "no reachable servers")) None)
              (mkMem ∅ []) [])
           "u1" (Foreign "no reachable servers")).
  - reflexivity.
  - done.
Defined.

Lemma FinishUpload_no_parts_witness :
  FinishUpload plainHex sampleNew "u1" []
    = (withUploadc sampleNew
         (mgo.withDocs (uploadc sampleNew)
            (<["u1" := mgo.setHash (plainHex []) docNew]> (mgo.docs (uploadc sampleNew)))),
       Ok (MultipartIndex.mk [], plainHex [])).
Proof.
  apply (FinishUpload_no_parts plainHex sampleNew "u1" docNew).
  - reflexivity.
  - reflexivity.
  - exact sampleNew_doc.
  - reflexivity.
  - reflexivity.
Defined.
